(** * prepare_TAT: transcript normalisation, validation and audio pairing

    A shallow embedding of [scripts/prepare_TAT.py].  Python values are
    modelled as the script uses them:

    - a [str] is the list of its Unicode code points ([pystr]);
    - a [dict] literal is an association list in insertion order (the
      order in which [.items()] yields it);
    - a raised exception is the [Raise] branch of [result];
    - each [print] call appends the text it writes to the list of
      printed texts;
    - the file system and the tokenizer are records of the operations
      the script calls on them, and the CSV writer yields the rows it
      writes or the error it raises on an empty table. *)

From Stdlib Require Import List Bool NArith ZArith Lia String Ascii.
From Stdlib Require Import DecimalString.
Import ListNotations.

(** ** Python strings *)

Definition char := N.
Definition pystr := list char.

(** Decoder for the UTF-8 bytes of a source literal, so that the tables
    below read like the script. *)
Fixpoint utf8_decode (bs : list N) : pystr :=
  match bs with
  | [] => []
  | b0 :: r0 =>
      if (b0 <? 0x80)%N then b0 :: utf8_decode r0
      else if (b0 <? 0xE0)%N then
        match r0 with
        | b1 :: r1 =>
            ((b0 - 0xC0) * 64 + (b1 - 0x80))%N :: utf8_decode r1
        | _ => []
        end
      else if (b0 <? 0xF0)%N then
        match r0 with
        | b1 :: b2 :: r2 =>
            ((b0 - 0xE0) * 4096 + (b1 - 0x80) * 64 + (b2 - 0x80))%N
              :: utf8_decode r2
        | _ => []
        end
      else
        match r0 with
        | b1 :: b2 :: b3 :: r3 =>
            ((b0 - 0xF0) * 262144 + (b1 - 0x80) * 4096
             + (b2 - 0x80) * 64 + (b3 - 0x80))%N :: utf8_decode r3
        | _ => []
        end
  end.

Definition u (s : string) : pystr :=
  utf8_decode (map N_of_ascii (list_ascii_of_string s)).

(** The straight double quote, written by code point. *)
Definition DQUOTE : pystr := [34%N].

Fixpoint pystr_eqb (a b : pystr) : bool :=
  match a, b with
  | [], [] => true
  | x :: a', y :: b' => (x =? y)%N && pystr_eqb a' b'
  | _, _ => false
  end.

Infix "==" := pystr_eqb (at level 70, no associativity).

(** [s.startswith(prefix)] *)
Fixpoint startswith (s prefix : pystr) {struct prefix} : bool :=
  match prefix, s with
  | [], _ => true
  | p :: prefix', c :: s' => (c =? p)%N && startswith s' prefix'
  | _ :: _, [] => false
  end.

(** [s.endswith(suffix)] *)
Definition endswith (s suffix : pystr) : bool :=
  startswith (rev s) (rev suffix).

(** [needle in hay] on strings: substring test. *)
Fixpoint contains (hay needle : pystr) : bool :=
  startswith hay needle
  || match hay with
     | [] => false
     | _ :: hay' => contains hay' needle
     end.

(** [str.isspace] on one code point: the characters [str.strip()] removes. *)
Definition isspace (c : char) : bool :=
  ((0x09 <=? c) && (c <=? 0x0D)
   || (0x1C <=? c) && (c <=? 0x20)
   || (c =? 0x85) || (c =? 0xA0) || (c =? 0x1680)
   || (0x2000 <=? c) && (c <=? 0x200A)
   || (c =? 0x2028) || (c =? 0x2029) || (c =? 0x202F)
   || (c =? 0x205F) || (c =? 0x3000))%N.

Fixpoint lstrip (s : pystr) : pystr :=
  match s with
  | [] => []
  | c :: s' => if isspace c then lstrip s' else s
  end.

Definition rstrip (s : pystr) : pystr := rev (lstrip (rev s)).

(** [s.strip()] *)
Definition strip (s : pystr) : pystr := rstrip (lstrip s).

(** [s.replace(old, new)]: left to right, non-overlapping.  [skip] counts
    the characters of a matched [old] that remain to be passed over. *)
Fixpoint replace_from (old new : pystr) (skip : nat) (s : pystr) : pystr :=
  match s with
  | [] => []
  | c :: s' =>
      match skip with
      | S k => replace_from old new k s'
      | O =>
          if startswith s old
          then new ++ replace_from old new (pred (List.length old)) s'
          else c :: replace_from old new O s'
      end
  end.

Definition replace (s old new : pystr) : pystr :=
  match old with
  | [] => new ++ flat_map (fun c => c :: new) s
  | _ :: _ => replace_from old new O s
  end.

(** [s[:-1]] *)
Definition drop_last (s : pystr) : pystr := removelast s.

(** [str(n)] for an [int]. *)
Definition str_of_int (n : Z) : pystr :=
  map N_of_ascii (list_ascii_of_string (NilZero.string_of_int (Z.to_int n))).

(** ** Exceptions *)

Inductive exn : Type :=
| IndexError
| KeyError
| ValueError
| AttributeError
| AssertionError
| NotImplementedError.

Inductive result (A : Type) : Type :=
| Return (a : A)
| Raise (e : exn).

Arguments Return {A} a.
Arguments Raise {A} e.

Definition bind {A B : Type} (m : result A) (k : A -> result B) : result B :=
  match m with
  | Return a => k a
  | Raise e => Raise e
  end.

Notation "x <- m ;; k" := (bind m (fun x => k))
  (at level 61, m at next level, right associativity).

(** [s[-1]]: the last character as a one-character string. *)
Definition last_item (s : pystr) : result pystr :=
  match rev s with
  | [] => Raise IndexError
  | c :: _ => Return [c]
  end.

(** [d[k]] on a dict whose keys are strings. *)
Fixpoint getitem {V : Type} (d : list (pystr * V)) (k : pystr) : result V :=
  match d with
  | [] => Raise KeyError
  | (k', v) :: d' => if k' == k then Return v else getitem d' k
  end.

(** ** Module-level constants *)

Definition TAILO : pystr := u "台羅".
Definition TAILONUM : pystr := u "台羅數字調".
Definition TAIWEN : pystr := u "漢羅台文".

Definition CLEAN_MAPPING : list (pystr * list (pystr * pystr)) :=
  [ (TAILONUM,
      [ (u "﹖", u "?");
        (u "！", u "!");
        (u "％", u "%");
        (u "（", u "(");
        (u "）", u ")");
        (u "，", u ",");
        (u "：", u ":");
        (u "；", u ";");
        (u "？", u "?");
        (u "—", u "--");
        (u "─", u "-") ]);
    (TAIWEN,
      [ (u "﹖", u "？");
        (u "?", u "？");
        (u "!", u "！");
        (u "(", u "（");
        (u ")", u "）");
        (u ",", u "，");
        (u ":", u "：");
        (u ";", u "；") ]) ].

Definition ACCEPTABLE_CHARS : pystr :=
  u "0123456789"
  ++ u "ABCDEFGHIJKLMNOPQRSTUVWXYZ"
  ++ u "abcdefghijklmnopqrstuvwxyz"
  ++ u "àáéìîòúāō"
  ++ u " "
  ++ (u "!" ++ DQUOTE ++ u "%()+,-./:;=?_~")
  ++ u "‘’“”'"
  ++ u "…⋯"
  ++ u "、。『』"
  ++ u "－".

(** ** clean_text *)

Definition clean_text (txt transcript_type : pystr) : result pystr :=
  if transcript_type == TAILONUM then
    let txt := strip txt in
    let txt := replace txt (u "'") (u " ") in
    let txt := replace txt DQUOTE (u " ") in
    let txt := replace txt (u "“") (u " ") in
    let txt := replace txt (u "”") (u " ") in
    let txt := replace txt (u ":") (u " ") in
    let txt := replace txt (u ")") (u " ") in
    let txt := replace txt (u "(") (u " ") in
    let txt := strip txt in
    let txt := if endswith txt (u ",") then drop_last txt ++ u "." else txt in
    c <- last_item txt ;;
    let txt := if negb (contains (u "?!.") c) then txt ++ u "." else txt in
    Return txt
  else if transcript_type == TAIWEN then
    let txt := if endswith txt (u "，") then drop_last txt ++ u "。" else txt in
    c <- last_item txt ;;
    let txt := if negb (contains (u "？。！") c) then txt ++ u "。" else txt in
    Return txt
  else
    Raise NotImplementedError.

(** ** Paths and the file system *)

(** A resolved [pathlib.Path]: its components below the root. *)
Definition Path := list pystr.

(** [p / name] *)
Definition joinpath (p : Path) (name : pystr) : Path :=
  match name with
  | [] => p
  | _ :: _ => p ++ [name]
  end.

Infix "//" := joinpath (at level 40, left associativity).

(** [p.name] *)
Definition name (p : Path) : pystr := last p [].

(** [p.parent] *)
Definition parent (p : Path) : Path := removelast p.

(** [s.rfind(".")] as the number of characters before the last dot. *)
Fixpoint rfind_dot (s : pystr) : option nat :=
  match s with
  | [] => None
  | c :: s' =>
      match rfind_dot s' with
      | Some i => Some (S i)
      | None => if (c =? 46)%N then Some O else None
      end
  end.

(** [p.stem]: the final component without its last suffix. *)
Definition stem (p : Path) : pystr :=
  let n := name p in
  match rfind_dot n with
  | Some i =>
      if (0 <? i)%nat && (i <? List.length n - 1)%nat then firstn i n else n
  | None => n
  end.

(** [str(p)] *)
Definition path_str (p : Path) : pystr :=
  match p with
  | [] => u "/"
  | _ :: _ => flat_map (fun c => u "/" ++ c) p
  end.

(** Shell-style patterns as [fnmatch] reads them. *)
Inductive glob_token : Type :=
| GStar
| GAny
| GClass (negate : bool) (items : pystr)
| GLit (c : char).

(** The text of a bracket expression up to its closing bracket. *)
Fixpoint until_close (s : pystr) : option (pystr * pystr) :=
  match s with
  | [] => None
  | c :: s' =>
      if (c =? 93)%N then Some ([], s')
      else match until_close s' with
           | Some (body, rest) => Some (c :: body, rest)
           | None => None
           end
  end.

Definition split_class (s : pystr) : option (bool * pystr * pystr) :=
  let '(negate, s1) :=
    match s with
    | c :: s' => if (c =? 33)%N then (true, s') else (false, s)
    | [] => (false, s)
    end in
  match s1 with
  | c :: s2 =>
      if (c =? 93)%N then
        match until_close s2 with
        | Some (body, rest) => Some (negate, c :: body, rest)
        | None => None
        end
      else
        match until_close s1 with
        | Some (body, rest) => Some (negate, body, rest)
        | None => None
        end
  | [] => None
  end.

Fixpoint translate (fuel : nat) (pat : pystr) : list glob_token :=
  match fuel, pat with
  | S fuel', c :: pat' =>
      if (c =? 42)%N then GStar :: translate fuel' pat'
      else if (c =? 63)%N then GAny :: translate fuel' pat'
      else if (c =? 91)%N then
        match split_class pat' with
        | Some (negate, items, rest) => GClass negate items :: translate fuel' rest
        | None => GLit c :: translate fuel' pat'
        end
      else GLit c :: translate fuel' pat'
  | _, _ => []
  end.

Fixpoint class_mem (items : pystr) (c : char) : bool :=
  match items with
  | [] => false
  | lo :: rest =>
      match rest with
      | dash :: hi :: rest' =>
          if (dash =? 45)%N
          then (lo <=? c)%N && (c <=? hi)%N || class_mem rest' c
          else (lo =? c)%N || class_mem rest c
      | _ => (lo =? c)%N || class_mem rest c
      end
  end.

Definition token_match (t : glob_token) (c : char) : bool :=
  match t with
  | GStar | GAny => true
  | GClass negate items => xorb negate (class_mem items c)
  | GLit c' => (c =? c')%N
  end.

Fixpoint tokens_match (p : list glob_token) (s : pystr) {struct p} : bool :=
  match p with
  | [] => match s with [] => true | _ :: _ => false end
  | GStar :: p' =>
      (fix star (s : pystr) : bool :=
         tokens_match p' s
         || match s with
            | [] => false
            | _ :: s' => star s'
            end) s
  | t :: p' =>
      match s with
      | [] => false
      | c :: s' => token_match t c && tokens_match p' s'
      end
  end.

(** [fnmatch.fnmatchcase(entry, pat)] *)
Definition fnmatch (entry pat : pystr) : bool :=
  tokens_match (translate (List.length pat) pat) entry.

(** What the script reads from disk: the entries of a directory in scan
    order, the [*.json] files below a directory in scan order, and the
    object [json.load] returns for a file (keys and string values). *)
Record FileSystem : Type := {
  scandir : Path -> list pystr;
  rglob_json : Path -> list Path;
  json_load : Path -> list (pystr * pystr)
}.

(** [dir.glob(pattern)] for a pattern of one component. *)
Definition glob (fs : FileSystem) (dir : Path) (pattern : pystr) : list Path :=
  map (joinpath dir) (filter (fun entry => fnmatch entry pattern) (scandir fs dir)).

(** ** get_wav_from_txt *)

Definition get_wav_from_txt (fs : FileSystem) (txt_path wav_dir : Path)
  : result Path :=
  let f_name := stem txt_path in
  let spk_name := name (parent txt_path) in
  let pattern := f_name ++ u "-[0-9]*.wav" in
  match glob fs (wav_dir // spk_name) pattern with
  | [wav_path] => Return wav_path
  | _ => Raise ValueError
  end.

(** ** get_transcription_from_json *)

Definition get_transcription_from_json (fs : FileSystem) (json_path : Path)
    (transcript_type : pystr) : result pystr :=
  let json_data := json_load fs json_path in
  txt <- getitem json_data transcript_type ;;
  txt <- clean_text txt transcript_type ;;
  Return txt.

(** ** validate_transcription *)

(** The tokenizer as the script uses it: [tokenizer(text)["input_ids"]]
    and [tokenizer.decode(ids, skip_special_tokens=True)]. *)
Record Tokenizer : Type := {
  input_ids : pystr -> list Z;
  decode : list Z -> pystr
}.

(** What one call yields: the returned pair and the lines it printed. *)
Record Validated : Type := {
  v_result : option pystr;
  v_bad_count : Z;
  v_printed : list pystr
}.

(** [for bad_char, good_char in mapping.items(): s = s.replace(...)] *)
Fixpoint replace_items (mapping : list (pystr * pystr)) (s : pystr) : pystr :=
  match mapping with
  | [] => s
  | (bad_char, good_char) :: mapping' =>
      replace_items mapping' (replace s bad_char good_char)
  end.

(** [for c in cleaned_transcript: if c not in ACCEPTABLE_CHARS: ...] over
    the characters still to visit. *)
Fixpoint scan_chars (cleaned_transcript : pystr) (bad_count : Z)
    (to_visit : pystr) : Validated :=
  match to_visit with
  | [] => {| v_result := Some cleaned_transcript;
             v_bad_count := bad_count;
             v_printed := [] |}
  | c :: to_visit' =>
      if negb (contains ACCEPTABLE_CHARS [c]) then
        {| v_result := None;
           v_bad_count := bad_count + 1;
           v_printed :=
             [str_of_int (bad_count + 1) ++ [9%N] ++ [c] ++ [9%N]
              ++ u ": " ++ cleaned_transcript] |}
      else scan_chars cleaned_transcript bad_count to_visit'
  end.

Definition validate_transcription (transcript transcript_type : pystr)
    (bad_count : Z) (tokenizer : option Tokenizer) : result Validated :=
  let cleaned_transcript := transcript in
  if transcript_type == TAILONUM then
    mapping <- getitem CLEAN_MAPPING transcript_type ;;
    let cleaned_transcript := replace_items mapping cleaned_transcript in
    Return (scan_chars cleaned_transcript bad_count cleaned_transcript)
  else if transcript_type == TAIWEN then
    mapping <- getitem CLEAN_MAPPING transcript_type ;;
    let cleaned_transcript := replace_items mapping cleaned_transcript in
    match tokenizer with
    | None => Raise AttributeError
    | Some tok =>
        let decoded_str := decode tok (input_ids tok cleaned_transcript) in
        if negb (cleaned_transcript == decoded_str) then
          Return {| v_result := None;
                    v_bad_count := bad_count + 1;
                    v_printed :=
                      [str_of_int (bad_count + 1) ++ [9%N] ++ u " "
                       ++ cleaned_transcript] |}
        else
          Return {| v_result := Some cleaned_transcript;
                    v_bad_count := bad_count;
                    v_printed := [] |}
    end
  else
    Raise NotImplementedError.

(** ** main *)

Record Args : Type := {
  TAT_root : Path;
  output_root : Path;
  transcript_type : pystr
}.

(** The state of the loop over the data frame's rows. *)
Record LoopState : Type := {
  bad_count : Z;
  output_buffer : list (Path * pystr);
  stdout : list pystr
}.

(** The table handed to the CSV writer, where it is written, and the
    state the loop ended in. *)
Record Manifest : Type := {
  output_path : Path;
  rows : list (Path * pystr);
  rejected : Z;
  printed : list pystr
}.

Fixpoint map_result {A B : Type} (f : A -> result B) (l : list A)
  : result (list B) :=
  match l with
  | [] => Return []
  | a :: l' =>
      b <- f a ;;
      bs <- map_result f l' ;;
      Return (b :: bs)
  end.

(** One iteration of the loop over [(wav_path, transcription)] rows. *)
Definition loop_body (transcript_type : pystr) (tokenizer : option Tokenizer)
    (st : LoopState) (data : Path * pystr) : result LoopState :=
  let wav_path := fst data in
  let transcript := snd data in
  v <- validate_transcription transcript transcript_type (bad_count st) tokenizer ;;
  let output_buffer :=
    match v_result v with
    | Some result => output_buffer st ++ [(wav_path, result)]
    | None => output_buffer st
    end in
  Return {| bad_count := v_bad_count v;
            output_buffer := output_buffer;
            stdout := stdout st ++ v_printed v |}.

Fixpoint loop (transcript_type : pystr) (tokenizer : option Tokenizer)
    (st : LoopState) (df : list (Path * pystr)) : result LoopState :=
  match df with
  | [] => Return st
  | data :: df' =>
      st' <- loop_body transcript_type tokenizer st data ;;
      loop transcript_type tokenizer st' df'
  end.

(** [pd.DataFrame(output_buffer).to_csv(output_path, index=None,
    header=["path", "text"])]: the rows as written.  The frame built
    from an empty list has no columns, and the writer refuses the two
    header names for it with [ValueError]. *)
Definition to_csv (output_buffer : list (Path * pystr))
  : result (list (Path * pystr)) :=
  match output_buffer with
  | [] => Raise ValueError
  | _ :: _ => Return output_buffer
  end.

(** [whisper] stands for the tokenizer [WhisperTokenizer.from_pretrained]
    loads. *)
Definition main (fs : FileSystem) (whisper : Tokenizer) (args : Args)
  : result Manifest :=
  cfg <- (if transcript_type args == u "tailo" then Return (TAILO, None)
          else if transcript_type args == u "taiwen"
               then Return (TAIWEN, Some whisper)
          else if transcript_type args == u "tailonum"
               then Return (TAILONUM, None)
          else Raise NotImplementedError) ;;
  let transcript_type := fst cfg in
  let tokenizer := snd cfg in
  let banner := u "Transcript Type: " ++ transcript_type in
  let wav_type := u "condenser" in
  let output_path := output_root args // (name (TAT_root args) ++ u ".csv") in
  let TAT_txt_dir := TAT_root args // u "json" in
  let TAT_wav_dir := TAT_root args // wav_type // u "wav" in
  let TAT_txt_list := rglob_json fs TAT_txt_dir in
  TAT_wav_list <-
    map_result (fun txt_path => get_wav_from_txt fs txt_path TAT_wav_dir)
               TAT_txt_list ;;
  if negb (List.length TAT_txt_list =? List.length TAT_wav_list)%nat
  then Raise AssertionError
  else
    transcription <-
      map_result (fun json_path =>
                    get_transcription_from_json fs json_path transcript_type)
                 TAT_txt_list ;;
    st <- loop transcript_type tokenizer
               {| bad_count := 0; output_buffer := []; stdout := [banner] |}
               (combine TAT_wav_list transcription) ;;
    written <- to_csv (output_buffer st) ;;
    Return {| output_path := output_path;
              rows := written;
              rejected := bad_count st;
              printed := stdout st ++ [u "Output at " ++ path_str output_path] |}.

(** ** The normaliser as the specification words it

    Used only to compare with [clean_text].  The final character of a
    text is partial: an empty text has none, and the rule that reads it
    is then undefined ([None]). *)

Module Spec.

Fixpoint final_char (s : pystr) : option char :=
  match s with
  | [] => None
  | c :: s' =>
      match s' with
      | [] => Some c
      | _ :: _ => final_char s'
      end
  end.

Definition member (c : char) (cs : list char) : bool :=
  existsb (N.eqb c) cs.

(** The whitespace characters, one by one: the ASCII controls tab to
    carriage return and file to unit separator, the space, next line,
    the no-break space, the ogham space mark, en quad to hair space,
    line and paragraph separator, the narrow no-break space, the medium
    mathematical space and the ideographic space. *)
Definition whitespace : list char :=
  [ 0x09; 0x0A; 0x0B; 0x0C; 0x0D; 0x1C; 0x1D; 0x1E; 0x1F; 0x20;
    0x85; 0xA0; 0x1680;
    0x2000; 0x2001; 0x2002; 0x2003; 0x2004; 0x2005; 0x2006; 0x2007;
    0x2008; 0x2009; 0x200A;
    0x2028; 0x2029; 0x202F; 0x205F; 0x3000 ]%N.

(** Leading whitespace goes: the text from its first other character. *)
Fixpoint trim_leading (s : pystr) : pystr :=
  match s with
  | [] => []
  | c :: s' => if member c whitespace then trim_leading s' else s
  end.

(** Trailing whitespace goes: a character stays when something stays
    after it or when it is not whitespace itself. *)
Fixpoint trim_trailing (s : pystr) : pystr :=
  match s with
  | [] => []
  | c :: s' =>
      match trim_trailing s' with
      | [] => if member c whitespace then [] else [c]
      | d :: t => c :: d :: t
      end
  end.

Definition trim (s : pystr) : pystr := trim_trailing (trim_leading s).

(** apostrophe, straight double quote, curly double quotes, colon,
    parentheses *)
Definition blanked : list char :=
  [39; 34; 0x201C; 0x201D; 58; 40; 41]%N.

Definition blank_out (s : pystr) : pystr :=
  map (fun c => if member c blanked then 32%N else c) s.

Definition trailing_comma_to_period (comma period : char) (s : pystr)
  : pystr :=
  match final_char s with
  | Some c => if (c =? comma)%N then removelast s ++ [period] else s
  | None => s
  end.

Definition ensure_terminal (marks : list char) (period : char) (s : pystr)
  : option pystr :=
  match final_char s with
  | Some c => Some (if member c marks then s else s ++ [period])
  | None => None
  end.

(** The two closing rules, in order. *)
Definition finish (marks : list char) (comma period : char) (s : pystr)
  : option pystr :=
  ensure_terminal marks period (trailing_comma_to_period comma period s).

Definition normalize_tailonum (raw : pystr) : option pystr :=
  finish [63; 33; 46]%N 44%N 46%N (trim (blank_out (trim raw))).

Definition normalize_taiwen (raw : pystr) : option pystr :=
  finish [0xFF1F; 0x3002; 0xFF01]%N 0xFF0C%N 0x3002%N raw.

End Spec.

(** ** Auxiliary definitions for the statements *)

(** The substitution map of a variant ([CLEAN_MAPPING[transcript_type]]). *)
Definition mapping_of (transcript_type : pystr) : list (pystr * pystr) :=
  match getitem CLEAN_MAPPING transcript_type with
  | Return mapping => mapping
  | Raise _ => []
  end.

Definition acceptable (c : char) : Prop := In c ACCEPTABLE_CHARS.

Definition accepted (cleaned : pystr) (bad_count : Z) : Validated :=
  {| v_result := Some cleaned; v_bad_count := bad_count; v_printed := [] |}.

(** A chain of single-character substitutions applied to one character. *)
Fixpoint subst_chain (m : list (char * pystr)) (c : char) : pystr :=
  match m with
  | [] => [c]
  | (k, v) :: m' => flat_map (subst_chain m') (if (c =? k)%N then v else [c])
  end.

(** A text that is empty or starts with a character [strip] keeps. *)
Definition hd_ok (s : pystr) : Prop :=
  match s with
  | [] => True
  | c :: _ => isspace c = false
  end.

(** A character the numeric-tone normaliser leaves in place. *)
Definition kept (c : char) : Prop := Spec.member c Spec.blanked = false.

(** What the character scan yields when it stops at [c]. *)
Definition rejected_at (c : char) (cleaned : pystr) (bad_count : Z) : Validated :=
  {| v_result := None;
     v_bad_count := bad_count + 1;
     v_printed :=
       [str_of_int (bad_count + 1) ++ [9%N] ++ [c] ++ [9%N]
        ++ u ": " ++ cleaned] |}.

(** The numeric-tone substitution map, keyed by code point. *)
Definition tailonum_table : list (char * pystr) :=
  [ (0xFE56, [63]); (0xFF01, [33]); (0xFF05, [37]); (0xFF08, [40]);
    (0xFF09, [41]); (0xFF0C, [44]); (0xFF1A, [58]); (0xFF1B, [59]);
    (0xFF1F, [63]); (0x2014, [45; 45]); (0x2500, [45]) ]%N.

(** Source literals are replaced by their code points. *)
Ltac literals :=
  repeat match goal with
         | |- context [u ?s] =>
             let v := eval vm_compute in (u s) in change (u s) with v
         end.

(** A small corpus: one speaker, up to three utterances, the third blank. *)
Module Demo.

Definition corpus (blank_third : bool) : FileSystem :=
  {| scandir := fun dir =>
       if name dir == u "spk1"
       then [u "utt1-03.wav"; u "utt2-1.wav"; u "utt10-1.wav";
             u "utt1-x.wav"; u "utt3-7.wav"]
       else [];
     rglob_json := fun dir =>
       [dir // u "spk1" // u "utt1.json"; dir // u "spk1" // u "utt2.json"]
       ++ (if blank_third then [dir // u "spk1" // u "utt3.json"] else []);
     json_load := fun p =>
       if name p == u "utt1.json"
       then [(TAILONUM, u "m7-ji5,"); (TAIWEN, u "你好，")]
       else if name p == u "utt2.json"
       then [(TAILONUM, u "café★"); (TAIWEN, u "好?")]
       else [(TAILONUM, u "   "); (TAIWEN, [])] |}.

(** A tokenizer that represents every text faithfully, and one that
    loses the last character. *)
Definition faithful : Tokenizer :=
  {| input_ids := map Z.of_N; decode := map Z.to_N |}.

Definition lossy : Tokenizer :=
  {| input_ids := map Z.of_N; decode := fun ids => removelast (map Z.to_N ids) |}.

Definition args (variant : string) : Args :=
  {| TAT_root := [u "data"; u "TAT-Vol1-train"];
     output_root := [u "out"];
     transcript_type := u variant |}.

(** A speaker directory in which [utt1] has two recordings. *)
Definition duplicated : FileSystem :=
  {| scandir := fun _ => [u "utt1-03.wav"; u "utt1-04.wav"];
     rglob_json := fun dir => [dir // u "spk1" // u "utt1.json"];
     json_load := fun _ => [(TAILONUM, u "m7-ji5,")] |}.

End Demo.

(** ** Further definitions for the statements *)

(** The mixed-script substitution map, keyed by code point. *)
Definition taiwen_table : list (char * pystr) :=
  [ (0xFE56, [0xFF1F]); (63, [0xFF1F]); (33, [0xFF01]); (40, [0xFF08]);
    (41, [0xFF09]); (44, [0xFF0C]); (58, [0xFF1A]); (59, [0xFF1B]) ]%N.

(** The characters a substitution map replaces. *)
Definition keys (table : list (char * pystr)) : list char := map fst table.

(** The terminal marks of the two normalised variants. *)
Definition tailonum_marks : list char := [63; 33; 46]%N.
Definition taiwen_marks : list char := [0xFF1F; 0x3002; 0xFF01]%N.

(** A character the numeric-tone normaliser drops from both ends or
    blanks out. *)
Definition blank_or_space (c : char) : bool :=
  isspace c || Spec.member c Spec.blanked.

(** [a] is [b] with some elements left out, order kept. *)
Inductive subseq {A : Type} : list A -> list A -> Prop :=
| subseq_nil : subseq [] []
| subseq_keep (x : A) (a b : list A) : subseq a b -> subseq (x :: a) (x :: b)
| subseq_skip (x : A) (a b : list A) : subseq a b -> subseq a (x :: b).


(** The characters [fnmatch] reads as wildcards. *)
Definition glob_special (c : char) : bool :=
  ((c =? 42) || (c =? 63) || (c =? 91))%N.

Definition plain (s : pystr) : bool :=
  forallb (fun c => negb (glob_special c)) s.

Definition digit (c : char) : bool := ((48 <=? c) && (c <=? 57))%N.

(** The variant tag and tokenizer [main] works with, as its first lines
    choose them from the command-line value. *)
Definition configure (whisper : Tokenizer) (variant : pystr)
  : result (pystr * option Tokenizer) :=
  if variant == u "tailo" then Return (TAILO, None)
  else if variant == u "taiwen" then Return (TAIWEN, Some whisper)
  else if variant == u "tailonum" then Return (TAILONUM, None)
  else Raise NotImplementedError.

(** * Properties *)

(** ** Strings *)

Lemma pystr_eqb_eq (a b : pystr) : (a == b) = true <-> a = b.
Proof.
  revert b; induction a as [|x a IH]; intros [|y b]; simpl;
    try (split; [discriminate | discriminate]); try tauto.
  rewrite andb_true_iff, N.eqb_eq, IH.
  split; [intros [-> ->]; reflexivity | intros H; injection H; auto].
Qed.

Lemma pystr_eqb_refl (a : pystr) : (a == a) = true.
Proof. apply pystr_eqb_eq; reflexivity. Qed.

Lemma pystr_eqb_neq (a b : pystr) : (a == b) = false <-> a <> b.
Proof.
  rewrite <- pystr_eqb_eq. destruct (a == b); split; congruence.
Qed.

Lemma replace_single (s : pystr) (c : char) (new : pystr) :
  replace s [c] new = flat_map (fun x => if (x =? c)%N then new else [x]) s.
Proof.
  unfold replace.
  induction s as [|x s IH]; simpl; [reflexivity|].
  rewrite <- IH.
  destruct (x =? c)%N; reflexivity.
Qed.

Lemma replace_char (s : pystr) (c d : char) :
  replace s [c] [d] = map (fun x => if (x =? c)%N then d else x) s.
Proof.
  rewrite replace_single.
  induction s as [|x s IH]; simpl; [reflexivity|].
  rewrite IH. destruct (x =? c)%N; reflexivity.
Qed.

Lemma contains_single (hay : pystr) (c : char) :
  contains hay [c] = existsb (N.eqb c) hay.
Proof.
  induction hay as [|x hay IH]; simpl; [reflexivity|].
  rewrite IH, (N.eqb_sym c x).
  destruct (x =? c)%N; reflexivity.
Qed.

Lemma existsb_eqb_In (c : char) (cs : list char) :
  existsb (N.eqb c) cs = true <-> In c cs.
Proof.
  rewrite existsb_exists. split.
  - intros [x [Hx Heq]]. apply N.eqb_eq in Heq. subst. assumption.
  - intros H. exists c. split; [assumption | apply N.eqb_refl].
Qed.

Lemma final_char_rev (s : pystr) : Spec.final_char s = hd_error (rev s).
Proof.
  induction s as [|c s IH]; simpl; [reflexivity|].
  destruct s as [|d s]; [reflexivity|].
  rewrite IH. simpl.
  destruct (rev s ++ [d]) eqn:E; [|reflexivity].
  destruct (rev s); discriminate.
Qed.

Lemma final_char_app (s : pystr) (c : char) : Spec.final_char (s ++ [c]) = Some c.
Proof. rewrite final_char_rev, rev_unit. reflexivity. Qed.

Lemma final_char_some (s : pystr) (c : char) :
  Spec.final_char s = Some c -> s = removelast s ++ [c].
Proof.
  rewrite final_char_rev. intros H.
  destruct (rev s) as [|x r] eqn:E; simpl in H; [discriminate|].
  injection H as ->.
  apply (f_equal (@rev _)) in E. rewrite rev_involutive in E. simpl in E.
  subst s. rewrite removelast_last. reflexivity.
Qed.

Lemma endswith_single (s : pystr) (c : char) :
  endswith s [c] =
  match Spec.final_char s with Some x => (x =? c)%N | None => false end.
Proof.
  unfold endswith. rewrite final_char_rev. simpl.
  destruct (rev s) as [|x r]; simpl; [reflexivity|].
  destruct (x =? c)%N; reflexivity.
Qed.

Lemma last_item_final (s : pystr) :
  last_item s =
  match Spec.final_char s with Some x => Return [x] | None => Raise IndexError end.
Proof.
  unfold last_item. rewrite final_char_rev. destruct (rev s); reflexivity.
Qed.


(** The specification's trim and the code's [strip] agree. *)
Lemma whitespace_isspace (c : char) :
  Spec.member c Spec.whitespace = isspace c.
Proof.
  unfold Spec.member, Spec.whitespace. cbn [existsb].
  repeat match goal with
         | |- context [(c =? ?k)%N] =>
             destruct (N.eqb_spec c k); [subst c; reflexivity | cbn [orb]]
         end.
  symmetry. apply not_true_is_false. unfold isspace.
  rewrite !orb_true_iff, !andb_true_iff, !N.leb_le, !N.eqb_eq. lia.
Qed.

Lemma trim_leading_lstrip (s : pystr) : Spec.trim_leading s = lstrip s.
Proof.
  induction s as [|c s IH]; [reflexivity|].
  cbn [Spec.trim_leading lstrip]. rewrite whitespace_isspace, IH. reflexivity.
Qed.

Lemma lstrip_app_one (l : pystr) (c : char) :
  lstrip (l ++ [c])
  = match lstrip l with
    | [] => if isspace c then [] else [c]
    | x :: t => (x :: t) ++ [c]
    end.
Proof.
  induction l as [|x l IH]; [reflexivity|].
  cbn [app lstrip]. destruct (isspace x); [exact IH | reflexivity].
Qed.

Lemma rstrip_cons (c : char) (s : pystr) :
  rstrip (c :: s)
  = match rstrip s with
    | [] => if isspace c then [] else [c]
    | d :: t => c :: d :: t
    end.
Proof.
  unfold rstrip. cbn [rev]. rewrite lstrip_app_one.
  destruct (lstrip (rev s)) as [|x t].
  - cbn [rev]. destruct (isspace c); reflexivity.
  - rewrite rev_app_distr. cbn [rev app].
    destruct (rev t ++ [x]) as [|d r] eqn:E; [|reflexivity].
    destruct (rev t); discriminate E.
Qed.

Lemma trim_trailing_rstrip (s : pystr) : Spec.trim_trailing s = rstrip s.
Proof.
  induction s as [|c s IH]; [reflexivity|].
  cbn [Spec.trim_trailing]. rewrite rstrip_cons, IH, whitespace_isspace.
  reflexivity.
Qed.

Lemma trim_strip (s : pystr) : Spec.trim s = strip s.
Proof.
  unfold Spec.trim, strip. rewrite trim_leading_lstrip. apply trim_trailing_rstrip.
Qed.

Lemma normalize_tailonum_strip (raw : pystr) :
  Spec.normalize_tailonum raw
  = Spec.finish [63; 33; 46]%N 44%N 46%N (strip (Spec.blank_out (strip raw))).
Proof. unfold Spec.normalize_tailonum. rewrite !trim_strip. reflexivity. Qed.

(** The seven replacements of [clean_text] blank out exactly the
    characters of [Spec.blanked]. *)
Lemma replace_blank_out (s : pystr) :
  replace (replace (replace (replace (replace (replace (replace s
    (u "'") (u " ")) DQUOTE (u " ")) (u "“") (u " ")) (u "”") (u " "))
    (u ":") (u " ")) (u ")") (u " ")) (u "(") (u " ")
  = Spec.blank_out s.
Proof.
  literals. unfold DQUOTE.
  rewrite !replace_char, !map_map.
  apply map_ext. intros x.
  unfold Spec.member, Spec.blanked. cbn [existsb].
  repeat match goal with
         | |- context [(x =? ?k)%N] =>
             destruct (N.eqb_spec x k); [subst x; reflexivity | cbv iota]
         end.
  reflexivity.
Qed.

Lemma terminal_rule (marks : pystr) (period : char) (txt : pystr) :
  (c <- last_item txt ;;
   Return (if negb (contains marks c) then txt ++ [period] else txt))
  = match Spec.ensure_terminal marks period txt with
    | Some t => Return t
    | None => Raise IndexError
    end.
Proof.
  rewrite last_item_final. unfold Spec.ensure_terminal, Spec.member.
  destruct (Spec.final_char txt) as [c|]; simpl; [|reflexivity].
  rewrite contains_single.
  destruct (existsb (N.eqb c) marks); reflexivity.
Qed.

Lemma comma_rule (comma period : char) (txt : pystr) :
  (if endswith txt [comma] then drop_last txt ++ [period] else txt)
  = Spec.trailing_comma_to_period comma period txt.
Proof.
  rewrite endswith_single. unfold Spec.trailing_comma_to_period, drop_last.
  destruct (Spec.final_char txt); reflexivity.
Qed.

Lemma clean_text_tailonum (raw : pystr) :
  clean_text raw TAILONUM
  = match Spec.normalize_tailonum raw with
    | Some t => Return t
    | None => Raise IndexError
    end.
Proof.
  unfold clean_text. rewrite pystr_eqb_refl. cbv zeta.
  rewrite replace_blank_out, normalize_tailonum_strip.
  literals.
  rewrite comma_rule.
  apply (terminal_rule [63; 33; 46]%N 46%N).
Qed.

Lemma TAIWEN_not_TAILONUM : (TAIWEN == TAILONUM) = false.
Proof. reflexivity. Qed.

Lemma clean_text_taiwen (raw : pystr) :
  clean_text raw TAIWEN
  = match Spec.normalize_taiwen raw with
    | Some t => Return t
    | None => Raise IndexError
    end.
Proof.
  unfold clean_text. rewrite TAIWEN_not_TAILONUM, pystr_eqb_refl. cbv zeta.
  literals.
  rewrite comma_rule.
  apply (terminal_rule [0xFF1F; 0x3002; 0xFF01]%N 0x3002%N).
Qed.

Lemma clean_text_other (txt ty : pystr) :
  ty <> TAILONUM -> ty <> TAIWEN -> clean_text txt ty = Raise NotImplementedError.
Proof.
  intros H1 H2. unfold clean_text.
  apply pystr_eqb_neq in H1. apply pystr_eqb_neq in H2.
  rewrite H1, H2. reflexivity.
Qed.

(** ** Stripping *)


Lemma lstrip_hd_ok (s : pystr) : hd_ok (lstrip s).
Proof.
  induction s as [|c s IH]; simpl; [exact I|].
  destruct (isspace c) eqn:E; [exact IH | exact E].
Qed.

Lemma lstrip_fix (s : pystr) : hd_ok s -> lstrip s = s.
Proof. destruct s as [|c s]; simpl; [reflexivity|]. intros ->. reflexivity. Qed.

Lemma lstrip_snoc (s : pystr) (c : char) :
  isspace c = false -> lstrip (s ++ [c]) = lstrip s ++ [c].
Proof.
  intros Hc. induction s as [|x s IH]; simpl.
  - rewrite Hc. reflexivity.
  - destruct (isspace x); [exact IH | reflexivity].
Qed.

Lemma rstrip_hd_ok (s : pystr) : hd_ok s -> hd_ok (rstrip s).
Proof.
  destruct s as [|c s]; [intros _; exact I|]. simpl. intros Hc.
  unfold rstrip. simpl. rewrite (lstrip_snoc _ _ Hc), rev_unit. exact Hc.
Qed.

Lemma strip_hd_ok (s : pystr) : hd_ok (strip s).
Proof. apply rstrip_hd_ok, lstrip_hd_ok. Qed.

Lemma strip_fix (s : pystr) (c : char) :
  hd_ok (s ++ [c]) -> isspace c = false -> strip (s ++ [c]) = s ++ [c].
Proof.
  intros Hhd Hc. unfold strip. rewrite (lstrip_fix _ Hhd).
  unfold rstrip. rewrite rev_unit. simpl. rewrite Hc.
  change (c :: rev s) with (rev [c] ++ rev s).
  rewrite <- rev_app_distr. apply rev_involutive.
Qed.

Lemma hd_ok_app (s w : pystr) : hd_ok s -> s <> [] -> hd_ok (s ++ w).
Proof. destruct s; [congruence | intros H _; exact H]. Qed.

Lemma hd_ok_replace_last (s : pystr) (p : char) :
  hd_ok s -> isspace p = false -> hd_ok (removelast s ++ [p]).
Proof.
  destruct s as [|c [|d s]]; simpl; auto.
Qed.

(** ** Characters the numeric-tone normaliser blanks out *)


Lemma kept_lstrip (s : pystr) : Forall kept s -> Forall kept (lstrip s).
Proof.
  induction 1 as [|c s Hc Hs IH]; simpl; [constructor|].
  destruct (isspace c); [exact IH | constructor; assumption].
Qed.

Lemma kept_strip (s : pystr) : Forall kept s -> Forall kept (strip s).
Proof.
  intros H. unfold strip, rstrip.
  apply Forall_rev, kept_lstrip, Forall_rev, kept_lstrip, H.
Qed.

Lemma kept_blank_out (s : pystr) : Forall kept (Spec.blank_out s).
Proof.
  induction s as [|c s IH]; [constructor|].
  change (Spec.blank_out (c :: s))
    with ((if Spec.member c Spec.blanked then 32%N else c) :: Spec.blank_out s).
  constructor; [|exact IH].
  unfold kept. destruct (Spec.member c Spec.blanked) eqn:E; [reflexivity | exact E].
Qed.

Lemma blank_out_fix (s : pystr) : Forall kept s -> Spec.blank_out s = s.
Proof.
  induction 1 as [|c s Hc Hs IH]; [reflexivity|].
  change (Spec.blank_out (c :: s))
    with ((if Spec.member c Spec.blanked then 32%N else c) :: Spec.blank_out s).
  unfold kept in Hc. rewrite Hc, IH. reflexivity.
Qed.

Lemma kept_removelast (s : pystr) : Forall kept s -> Forall kept (removelast s).
Proof.
  induction 1 as [|c s Hc Hs IH]; simpl; [constructor|].
  destruct s; [constructor | constructor; assumption].
Qed.

(** ** The two terminal-punctuation rules, for any marks *)

Section Terminal.

Variables (marks : list char) (comma period : char).
Hypothesis comma_no_mark : Spec.member comma marks = false.
Hypothesis period_mark : Spec.member period marks = true.

Lemma finish_ends_with_mark (s out : pystr) :
  Spec.finish marks comma period s = Some out ->
  exists body c, out = body ++ [c] /\ Spec.member c marks = true.
Proof.
  unfold Spec.finish, Spec.ensure_terminal.
  destruct (Spec.final_char _) as [c|] eqn:E; [|discriminate].
  intros H. injection H as <-.
  destruct (Spec.member c marks) eqn:M.
  - eexists _, c. split; [apply final_char_some, E | exact M].
  - eexists _, period. split; [reflexivity | exact period_mark].
Qed.

Lemma finish_fix (body : pystr) (c : char) :
  Spec.member c marks = true ->
Spec.finish marks comma period (body ++ [c]) = Some (body ++ [c]).
Proof.
  intros M. unfold Spec.finish, Spec.trailing_comma_to_period.
  rewrite final_char_app.
  destruct (N.eqb_spec c comma) as [->|_]; [congruence|].
  unfold Spec.ensure_terminal. rewrite final_char_app, M. reflexivity.
Qed.

Lemma finish_idempotent (s out : pystr) :
  Spec.finish marks comma period s = Some out ->
Spec.finish marks comma period out = Some out.
Proof.
  intros H. destruct (finish_ends_with_mark _ _ H) as (body & c & -> & M).
  apply finish_fix, M.
Qed.

Lemma finish_shape (s out : pystr) :
  Spec.finish marks comma period s = Some out ->
  exists t, t <> [] /\ (t = s \/ t = removelast s ++ [period])
            /\ (out = t \/ out = t ++ [period]).
Proof.
  unfold Spec.finish, Spec.ensure_terminal.
  destruct (Spec.final_char _) as [c|] eqn:E; [|discriminate].
  intros H. injection H as <-.
  exists (Spec.trailing_comma_to_period comma period s).
  split; [intros Z; rewrite Z in E; discriminate|].
  split.
  - unfold Spec.trailing_comma_to_period.
    destruct (Spec.final_char s) as [d|]; [|auto].
    destruct (d =? comma)%N; auto.
  - destruct (Spec.member c marks); auto.
Qed.

End Terminal.

Lemma tailonum_mark_not_space (c : char) :
  Spec.member c [63; 33; 46]%N = true -> isspace c = false.
Proof.
  unfold Spec.member. cbn [existsb].
  rewrite !orb_true_iff, !N.eqb_eq.
  intros [->|[->|[->|H]]]; try reflexivity. discriminate.
Qed.

Lemma normalize_tailonum_idempotent (raw out : pystr) :
  Spec.normalize_tailonum raw = Some out ->
  Spec.normalize_tailonum out = Some out.
Proof.
  rewrite !normalize_tailonum_strip. intros H.
  set (t := strip (Spec.blank_out (strip raw))) in H.
  assert (Ht : hd_ok t /\ Forall kept t).
  { split; [apply strip_hd_ok | apply kept_strip, kept_blank_out]. }
  destruct Ht as [Hhd Hkept].
  assert (Hout : hd_ok out /\ Forall kept out).
  { destruct (finish_shape _ _ _ _ _ H) as (t1 & Hne & Ht1 & Ho).
    clear H. destruct Ht1 as [E1|E1], Ho as [E2|E2]; rewrite E2; rewrite E1 in *.
    - auto.
    - split; [apply hd_ok_app; assumption|].
      apply Forall_app. split; [assumption | repeat constructor].
    - split; [apply hd_ok_replace_last; auto|].
      apply Forall_app. split; [apply kept_removelast, Hkept | repeat constructor].
    - split; [apply hd_ok_app; [apply hd_ok_replace_last; auto | assumption]|].
      rewrite !Forall_app. repeat split; try (repeat constructor).
      apply kept_removelast, Hkept. }
  destruct Hout as [Hhd' Hkept'].
  destruct (finish_ends_with_mark [63; 33; 46]%N 44%N 46%N eq_refl _ _ H)
    as (body & c & E & M).
  assert (Hs : strip (Spec.blank_out (strip out)) = out).
  { subst out.
    rewrite (strip_fix _ _ Hhd' (tailonum_mark_not_space _ M)).
    rewrite (blank_out_fix _ Hkept').
    apply (strip_fix _ _ Hhd' (tailonum_mark_not_space _ M)). }
  rewrite Hs. subst out. apply finish_fix; solve [reflexivity | exact M].
Qed.

(** ** The error monad *)

Lemma bind_Return_inv {A B : Type} (m : result A) (k : A -> result B) (b : B) :
  bind m k = Return b -> exists a, m = Return a /\ k a = Return b.
Proof.
  destruct m as [a|e]; simpl; [|discriminate].
  intros H. exists a. split; [reflexivity | exact H].
Qed.

Lemma map_result_length {A B : Type} (f : A -> result B) (l : list A) (l' : list B) :
  map_result f l = Return l' -> List.length l' = List.length l.
Proof.
  revert l'. induction l as [|a l IH]; simpl; intros l' H.
  - injection H as <-. reflexivity.
  - apply bind_Return_inv in H as (b & _ & H).
    apply bind_Return_inv in H as (bs & Hbs & H).
    injection H as <-. simpl. f_equal. apply IH, Hbs.
Qed.


(** ** Substitution maps with one-character keys *)

Lemma flat_map_flat_map {A B C : Type} (f : A -> list B) (g : B -> list C)
    (l : list A) :
  flat_map g (flat_map f l) = flat_map (fun a => flat_map g (f a)) l.
Proof.
  induction l as [|a l IH]; simpl; [reflexivity|].
  rewrite flat_map_app, IH. reflexivity.
Qed.

Lemma replace_items_subst_chain (m : list (char * pystr)) (s : pystr) :
  replace_items (map (fun kv => ([fst kv], snd kv)) m) s
  = flat_map (subst_chain m) s.
Proof.
  revert s. induction m as [|[k v] m IH]; intros s.
  - simpl. induction s as [|c s IHs]; simpl; [reflexivity | f_equal; exact IHs].
  - cbn [map replace_items fst snd subst_chain].
    rewrite IH, replace_single, flat_map_flat_map. reflexivity.
Qed.

(** ** The character scan *)

Lemma acceptable_contains (c : char) :
  contains ACCEPTABLE_CHARS [c] = true <-> acceptable c.
Proof. rewrite contains_single. apply existsb_eqb_In. Qed.

Lemma acceptable_dec (c : char) : {acceptable c} + {~ acceptable c}.
Proof. apply (in_dec N.eq_dec). Qed.

Lemma Forall_acceptable_forallb (s : pystr) :
  forallb (fun c => contains ACCEPTABLE_CHARS [c]) s = true <->
  Forall acceptable s.
Proof.
  rewrite forallb_forall, Forall_forall.
  split; intros H c Hc; apply acceptable_contains, H, Hc.
Qed.

Lemma first_unacceptable (s : pystr) :
  Forall acceptable s \/
  exists before c after,
    s = before ++ c :: after /\ Forall acceptable before /\ ~ acceptable c.
Proof.
  induction s as [|x s IH]; [left; constructor|].
  destruct (acceptable_dec x) as [Hx|Hx].
  - destruct IH as [IH|(before & c & after & -> & Hb & Hc)].
    + left. constructor; assumption.
    + right. exists (x :: before), c, after.
      repeat split; [constructor; assumption | exact Hc].
  - right. exists [], x, s. repeat split; [constructor | exact Hx].
Qed.


Lemma scan_chars_accept (cleaned : pystr) (bad_count : Z) (to_visit : pystr) :
  Forall acceptable to_visit ->
  scan_chars cleaned bad_count to_visit = accepted cleaned bad_count.
Proof.
  induction 1 as [|c s Hc Hs IH]; [reflexivity|].
  cbn [scan_chars]. apply acceptable_contains in Hc. rewrite Hc. exact IH.
Qed.

Lemma scan_chars_reject (cleaned : pystr) (bad_count : Z)
    (before : pystr) (c : char) (after : pystr) :
  Forall acceptable before -> ~ acceptable c ->
  scan_chars cleaned bad_count (before ++ c :: after)
  = rejected_at c cleaned bad_count.
Proof.
  intros Hb Hc. induction Hb as [|x s Hx Hs IH].
  - cbn [app scan_chars].
    destruct (contains ACCEPTABLE_CHARS [c]) eqn:E; [|reflexivity].
    apply acceptable_contains in E. contradiction.
  - cbn [app scan_chars]. apply acceptable_contains in Hx. rewrite Hx. exact IH.
Qed.

Lemma Forall_app_bad (before : pystr) (c : char) (after : pystr) :
  ~ acceptable c -> ~ Forall acceptable (before ++ c :: after).
Proof.
  intros Hc H. apply Forall_app in H as [_ H]. inversion H. contradiction.
Qed.

Lemma getitem_TAILONUM :
  getitem CLEAN_MAPPING TAILONUM = Return (mapping_of TAILONUM).
Proof. reflexivity. Qed.

Lemma getitem_TAIWEN :
  getitem CLEAN_MAPPING TAIWEN = Return (mapping_of TAIWEN).
Proof. reflexivity. Qed.

Lemma validate_tailonum (transcript : pystr) (bad_count : Z)
    (tokenizer : option Tokenizer) :
  validate_transcription transcript TAILONUM bad_count tokenizer
  = let cleaned := replace_items (mapping_of TAILONUM) transcript in
    Return (scan_chars cleaned bad_count cleaned).
Proof.
  unfold validate_transcription.
  rewrite pystr_eqb_refl, getitem_TAILONUM. reflexivity.
Qed.

Lemma validate_taiwen (transcript : pystr) (bad_count : Z) (tok : Tokenizer) :
  validate_transcription transcript TAIWEN bad_count (Some tok)
  = let cleaned := replace_items (mapping_of TAIWEN) transcript in
    if cleaned == decode tok (input_ids tok cleaned)
    then Return (accepted cleaned bad_count)
    else Return {| v_result := None;
                   v_bad_count := bad_count + 1;
                   v_printed :=
                     [str_of_int (bad_count + 1) ++ [9%N] ++ u " " ++ cleaned] |}.
Proof.
  unfold validate_transcription.
  rewrite TAIWEN_not_TAILONUM, pystr_eqb_refl, getitem_TAIWEN.
  cbn [bind]. cbv zeta.
  destruct (_ == _); reflexivity.
Qed.

Lemma scan_chars_outcome (cleaned : pystr) (bad_count : Z) (to_visit : pystr) :
  (v_result (scan_chars cleaned bad_count to_visit) = Some cleaned
   /\ v_bad_count (scan_chars cleaned bad_count to_visit) = bad_count)
  \/ (v_result (scan_chars cleaned bad_count to_visit) = None
      /\ v_bad_count (scan_chars cleaned bad_count to_visit) = (bad_count + 1)%Z).
Proof.
  induction to_visit as [|c s IH]; cbn [scan_chars].
  - left. split; reflexivity.
  - destruct (contains ACCEPTABLE_CHARS [c]); cbn [negb]; [exact IH|].
    right. split; reflexivity.
Qed.

(** Every call that returns either yields a text and leaves the counter
    alone, or yields no text and adds one to the counter. *)
Lemma validate_transcription_outcome (transcript ty : pystr) (bad_count : Z)
    (tokenizer : option Tokenizer) (v : Validated) :
  validate_transcription transcript ty bad_count tokenizer = Return v ->
  (exists text, v_result v = Some text /\ v_bad_count v = bad_count)
  \/ (v_result v = None /\ v_bad_count v = (bad_count + 1)%Z).
Proof.
  destruct (ty == TAILONUM) eqn:E1; [|destruct (ty == TAIWEN) eqn:E2].
  - apply pystr_eqb_eq in E1. subst ty. rewrite validate_tailonum. cbv zeta.
    set (cleaned := replace_items (mapping_of TAILONUM) transcript).
    intros H. injection H as <-.
    destruct (scan_chars_outcome cleaned bad_count cleaned) as [[H1 H2]|H];
      [left; exists cleaned; split; assumption | right; exact H].
  - apply pystr_eqb_eq in E2. subst ty.
    destruct tokenizer as [tok|].
    + rewrite validate_taiwen. cbv zeta.
      destruct (replace_items _ _ == _); intros H; injection H as <-.
      * left. eexists. split; reflexivity.
      * right. split; reflexivity.
    + unfold validate_transcription.
      rewrite TAIWEN_not_TAILONUM, pystr_eqb_refl, getitem_TAIWEN. discriminate.
  - unfold validate_transcription. rewrite E1, E2. discriminate.
Qed.

(** ** The loop of [main] *)

Lemma loop_body_step (ty : pystr) (tokenizer : option Tokenizer)
    (st st' : LoopState) (data : Path * pystr) :
  loop_body ty tokenizer st data = Return st' ->
  (exists text,
      output_buffer st' = output_buffer st ++ [(fst data, text)]
      /\ bad_count st' = bad_count st)
  \/ (output_buffer st' = output_buffer st
      /\ bad_count st' = (bad_count st + 1)%Z).
Proof.
  unfold loop_body. intros H.
  apply bind_Return_inv in H as (v & Hv & H).
  injection H as <-. cbn [output_buffer bad_count].
  destruct (validate_transcription_outcome _ _ _ _ _ Hv)
    as [(text & -> & ->)|[-> ->]].
  - left. exists text. split; reflexivity.
  - right. split; reflexivity.
Qed.

Lemma loop_conservation (ty : pystr) (tokenizer : option Tokenizer)
    (df : list (Path * pystr)) (st st' : LoopState) :
  loop ty tokenizer st df = Return st' ->
  (Z.of_nat (List.length (output_buffer st')) + bad_count st'
   = Z.of_nat (List.length (output_buffer st)) + bad_count st
     + Z.of_nat (List.length df))%Z.
Proof.
  revert st. induction df as [|data df IH]; intros st H.
  - cbn [loop] in H. injection H as <-. cbn [List.length]. lia.
  - cbn [loop] in H. apply bind_Return_inv in H as (st1 & Hbody & H).
    apply IH in H. rewrite H. cbn [List.length].
    destruct (loop_body_step _ _ _ _ _ Hbody) as [(text & -> & ->)|[-> ->]].
    + rewrite length_app. cbn [List.length]. lia.
    + lia.
Qed.

Lemma to_csv_Return_inv (output_buffer written : list (Path * pystr)) :
  to_csv output_buffer = Return written ->
  written = output_buffer /\ output_buffer <> [].
Proof.
  destruct output_buffer as [|row l]; cbn [to_csv]; [discriminate|].
  intros H. split; [congruence | discriminate].
Qed.

Lemma main_Return_inv (fs : FileSystem) (whisper : Tokenizer) (args : Args)
    (m : Manifest) :
  main fs whisper args = Return m ->
  exists ty tokenizer wavs texts st,
    map_result (fun txt_path =>
                  get_wav_from_txt fs txt_path
                    (TAT_root args // u "condenser" // u "wav"))
               (rglob_json fs (TAT_root args // u "json")) = Return wavs
    /\ map_result (fun json_path => get_transcription_from_json fs json_path ty)
                  (rglob_json fs (TAT_root args // u "json")) = Return texts
    /\ loop ty tokenizer
            {| bad_count := 0; output_buffer := [];
               stdout := [u "Transcript Type: " ++ ty] |}
            (combine wavs texts) = Return st
    /\ rows m = output_buffer st
    /\ rejected m = bad_count st.
Proof.
  unfold main. intros H.
  apply bind_Return_inv in H as (cfg & _ & H). cbv zeta in H.
  apply bind_Return_inv in H as (wavs & Hwavs & H).
  destruct (negb _); [discriminate|].
  apply bind_Return_inv in H as (texts & Htexts & H).
  apply bind_Return_inv in H as (st & Hloop & H).
  apply bind_Return_inv in H as (written & Hcsv & H).
  apply to_csv_Return_inv in Hcsv as [-> _].
  injection H as <-.
  exists (fst cfg), (snd cfg), wavs, texts, st.
  repeat split; assumption.
Qed.

Lemma get_wav_from_txt_raises (fs : FileSystem) (txt_path wav_dir : Path)
    (e : exn) :
  get_wav_from_txt fs txt_path wav_dir = Raise e -> e = ValueError.
Proof.
  unfold get_wav_from_txt. cbv zeta.
  destruct (glob _ _ _) as [|p [|q l]]; intros H; congruence.
Qed.

(** * The claims *)

(** ** Normalisation ([clean_text]) *)

Lemma lstrip_app (a b : pystr) :
  lstrip (a ++ b)
  = match lstrip a with
    | [] => lstrip b
    | x :: t => (x :: t) ++ b
    end.
Proof.
  induction a as [|x a IH]; [reflexivity|].
  cbn [app lstrip]. destruct (isspace x); [exact IH | reflexivity].
Qed.

Lemma lstrip_all_space (s : pystr) :
  Forall (fun c => In c Spec.whitespace) s -> lstrip s = [].
Proof.
  induction 1 as [|c s Hc Hs IH]; [reflexivity|].
  cbn [lstrip]. rewrite <- whitespace_isspace.
  apply existsb_eqb_In in Hc. unfold Spec.member. rewrite Hc. exact IH.
Qed.

Lemma strip_padding (lead s trail : pystr) :
  Forall (fun c => In c Spec.whitespace) lead ->
  Forall (fun c => In c Spec.whitespace) trail ->
  strip (lead ++ s ++ trail) = strip s.
Proof.
  intros Hl Ht.
  assert (Hr : forall y, rstrip (y ++ trail) = rstrip y).
  { intros y. unfold rstrip. rewrite rev_app_distr, lstrip_app.
    rewrite (lstrip_all_space (rev trail)); [reflexivity|].
    apply Forall_rev, Ht. }
  unfold strip. rewrite lstrip_app, (lstrip_all_space lead Hl), lstrip_app.
  destruct (lstrip s) as [|x t]; [|apply Hr].
  rewrite (lstrip_all_space trail Ht). reflexivity.
Qed.

(** C3.  For the numeric-tone variant [clean_text] performs, on every
    input and in this order: trim; blank out apostrophe, straight and
    curly double quotes, colon and both parentheses; trim again; turn a
    trailing comma into a period; append a period unless the final
    character is one of [?], [!], [.].  Where the text has no final
    character the last rule is undefined and the code raises
    [IndexError].  Whitespace around the input makes no difference, and
    [" (a b) "] loses its parentheses and then the blanks they leave.
    ["m7-ji5,"] normalises to ["m7-ji5."], which the character-set
    validator accepts. *)
Theorem clean_text_tailonum_steps :
  (forall raw,
      clean_text raw TAILONUM
      = match Spec.normalize_tailonum raw with
        | Some t => Return t
        | None => Raise IndexError
        end)
  /\ (forall lead raw trail,
         Forall (fun c => In c Spec.whitespace) lead ->
         Forall (fun c => In c Spec.whitespace) trail ->
         clean_text (lead ++ raw ++ trail) TAILONUM = clean_text raw TAILONUM)
  /\ clean_text (u " (a b) ") TAILONUM = Return (u "a b.")
  /\ clean_text (u "m7-ji5,") TAILONUM = Return (u "m7-ji5.")
  /\ (forall bad_count tokenizer,
         validate_transcription (u "m7-ji5.") TAILONUM bad_count tokenizer
         = Return (accepted (u "m7-ji5.") bad_count)).
Proof.
  split; [exact clean_text_tailonum|].
  split.
  { intros lead raw trail Hl Ht.
    rewrite !clean_text_tailonum, !normalize_tailonum_strip.
    rewrite (strip_padding lead raw trail Hl Ht). reflexivity. }
  split; [reflexivity|].
  split; [reflexivity|].
  intros bad_count tokenizer. rewrite validate_tailonum. cbv zeta.
  replace (replace_items (mapping_of TAILONUM) (u "m7-ji5."))
    with (u "m7-ji5.") by reflexivity.
  apply f_equal, scan_chars_accept, Forall_acceptable_forallb. reflexivity.
Qed.

Lemma clean_text_tailonum_steps_witness :
  clean_text ([9; 0x3000; 32]%N ++ u "(m7-ji5)," ++ [10; 0xA0]%N) TAILONUM
  = clean_text (u "(m7-ji5),") TAILONUM.
Proof.
  apply (proj1 (proj2 clean_text_tailonum_steps)
           [9; 0x3000; 32]%N (u "(m7-ji5),") [10; 0xA0]%N).
  - apply Forall_forall. intros c Hc. apply existsb_eqb_In.
    revert c Hc. apply forallb_forall. reflexivity.
  - apply Forall_forall. intros c Hc. apply existsb_eqb_In.
    revert c Hc. apply forallb_forall. reflexivity.
Defined.

(** C4.  For the mixed-script variant [clean_text] turns a trailing
    full-width comma into the full-width period and appends the
    full-width period unless the final character is one of the three
    full-width terminal marks; on a text without a final character the
    rule is undefined and the code raises [IndexError].  ["你好，"]
    normalises to ["你好。"]. *)
Theorem clean_text_taiwen_steps :
  (forall raw,
      clean_text raw TAIWEN
      = match Spec.normalize_taiwen raw with
        | Some t => Return t
        | None => Raise IndexError
        end)
  /\ clean_text (u "你好，") TAIWEN = Return (u "你好。").
Proof.
  split; [exact clean_text_taiwen | reflexivity].
Qed.

(** C7, as the code has it.  For the romanised variant [clean_text]
    defines no rule: on every input it raises [NotImplementedError] and
    returns no text. *)
Theorem clean_text_tailo_not_implemented (txt : pystr) :
  clean_text txt TAILO = Raise NotImplementedError.
Proof. reflexivity. Qed.

(** C7 as stated (a passthrough) fails: the input is not returned. *)
Lemma clean_text_tailo_not_passthrough :
  clean_text (u "tsit8-e5") TAILO <> Return (u "tsit8-e5").
Proof. intros H. vm_compute in H. discriminate H. Qed.

(** C8.  A transcript that is blank after trimming (numeric-tone) or
    empty (mixed-script) makes [clean_text] raise [IndexError] when it
    reads the last character; the error leaves [main], so the run stops
    instead of counting the record as rejected. *)
Theorem clean_text_empty_raises_IndexError :
  clean_text (u "   ") TAILONUM = Raise IndexError
  /\ clean_text [] TAIWEN = Raise IndexError
  /\ main (Demo.corpus true) Demo.faithful (Demo.args "tailonum")
     = Raise IndexError
  /\ main (Demo.corpus true) Demo.faithful (Demo.args "taiwen")
     = Raise IndexError
  /\ (exists m, main (Demo.corpus false) Demo.faithful (Demo.args "tailonum")
                = Return m /\ rejected m = 1%Z).
Proof.
  split; [reflexivity|].
  split; [reflexivity|].
  split; [vm_compute; reflexivity|].
  split; [vm_compute; reflexivity|].
  eexists. split; [vm_compute; reflexivity | reflexivity].
Qed.

(** C9.  [clean_text] is idempotent for every variant: where it returns
    a text, applying it to that text returns the same text. *)
Theorem clean_text_idempotent (txt transcript_type out : pystr) :
  clean_text txt transcript_type = Return out ->
  clean_text out transcript_type = Return out.
Proof.
  destruct (transcript_type == TAILONUM) eqn:E1;
    [|destruct (transcript_type == TAIWEN) eqn:E2].
  - apply pystr_eqb_eq in E1. subst transcript_type.
    rewrite !clean_text_tailonum.
    destruct (Spec.normalize_tailonum txt) as [t|] eqn:E; [|discriminate].
    intros H. injection H as ->.
    rewrite (normalize_tailonum_idempotent _ _ E). reflexivity.
  - apply pystr_eqb_eq in E2. subst transcript_type.
    rewrite !clean_text_taiwen. unfold Spec.normalize_taiwen.
    destruct (Spec.finish _ _ _ txt) as [t|] eqn:E; [|discriminate].
    intros H. injection H as ->.
    rewrite (finish_idempotent [0xFF1F; 0x3002; 0xFF01]%N 0xFF0C%N 0x3002%N
               eq_refl eq_refl _ _ E).
    reflexivity.
  - apply pystr_eqb_neq in E1. apply pystr_eqb_neq in E2.
    rewrite (clean_text_other txt _ E1 E2). discriminate.
Qed.

Lemma clean_text_idempotent_witness :
  clean_text (u "m7-ji5.") TAILONUM = Return (u "m7-ji5.")
  /\ clean_text (u "你好。") TAIWEN = Return (u "你好。").
Proof.
  split.
  - apply (clean_text_idempotent (u "  m7-ji5, ") TAILONUM (u "m7-ji5.")).
    reflexivity.
  - apply (clean_text_idempotent (u "你好，") TAIWEN (u "你好。")).
    reflexivity.
Defined.

(** ** Validation ([validate_transcription]) *)

Lemma mapping_of_TAILONUM :
  mapping_of TAILONUM = map (fun kv => ([fst kv], snd kv)) tailonum_table.
Proof. reflexivity. Qed.

Lemma validate_tailonum_accept (transcript : pystr) (bad_count : Z)
    (tokenizer : option Tokenizer) :
  Forall acceptable (replace_items (mapping_of TAILONUM) transcript) ->
  validate_transcription transcript TAILONUM bad_count tokenizer
  = Return (accepted (replace_items (mapping_of TAILONUM) transcript) bad_count).
Proof.
  intros H. rewrite validate_tailonum. cbv zeta.
  apply f_equal, scan_chars_accept, H.
Qed.

Lemma validate_tailonum_reject (transcript : pystr) (bad_count : Z)
    (tokenizer : option Tokenizer) (before : pystr) (c : char) (after : pystr) :
  replace_items (mapping_of TAILONUM) transcript = before ++ c :: after ->
  Forall acceptable before -> ~ acceptable c ->
  validate_transcription transcript TAILONUM bad_count tokenizer
  = Return (rejected_at c (replace_items (mapping_of TAILONUM) transcript)
              bad_count).
Proof.
  intros E Hb Hc. rewrite validate_tailonum. cbv zeta. apply f_equal.
  rewrite E at 2. apply scan_chars_reject; assumption.
Qed.

(** C1.  For the numeric-tone variant the validator first applies the
    substitution map, giving the cleaned text, and then scans it
    character by character against [ACCEPTABLE_CHARS].  It accepts the
    cleaned text, with the counter unchanged, exactly when every
    character is acceptable; otherwise it stops at the first character
    that is not, whatever follows it, returns no text, adds one to the
    counter and prints that character with the cleaned text. *)
Theorem validate_transcription_tailonum_charset
    (transcript : pystr) (bad_count : Z) (tokenizer : option Tokenizer) :
  let cleaned := replace_items (mapping_of TAILONUM) transcript in
  let outcome :=
    validate_transcription transcript TAILONUM bad_count tokenizer in
  (Forall acceptable cleaned ->
   outcome = Return (accepted cleaned bad_count))
  /\ (forall before c after,
         cleaned = before ++ c :: after ->
         Forall acceptable before -> ~ acceptable c ->
         outcome = Return (rejected_at c cleaned bad_count))
  /\ (exists v,
         outcome = Return v
         /\ (v_result v = Some cleaned <-> Forall acceptable cleaned)
         /\ (v_result v = None <-> ~ Forall acceptable cleaned)).
Proof.
  intros cleaned outcome.
  assert (Hacc : Forall acceptable cleaned ->
                 outcome = Return (accepted cleaned bad_count))
    by apply validate_tailonum_accept.
  assert (Hrej : forall before c after,
             cleaned = before ++ c :: after ->
             Forall acceptable before -> ~ acceptable c ->
             outcome = Return (rejected_at c cleaned bad_count))
    by apply validate_tailonum_reject.
  split; [exact Hacc|]. split; [exact Hrej|].
  destruct (first_unacceptable cleaned)
    as [Hok|(before & c & after & E & Hb & Hc)].
  - exists (accepted cleaned bad_count). split; [apply Hacc, Hok|].
    cbn [v_result accepted]. split; split; try tauto; discriminate.
  - exists (rejected_at c cleaned bad_count).
    split; [apply (Hrej before c after); assumption|].
    assert (Hno : ~ Forall acceptable cleaned)
      by (rewrite E; apply Forall_app_bad, Hc).
    cbn [v_result rejected_at]. split; split; try tauto; discriminate.
Qed.

Lemma validate_transcription_tailonum_charset_witness :
  validate_transcription (u "m7-ji5？") TAILONUM 0 None
  = Return (accepted (u "m7-ji5?") 0)
  /\ validate_transcription (u "café★.") TAILONUM 0 None
     = Return (rejected_at 0x2605%N (u "café★.") 0).
Proof.
  split.
  - apply (proj1 (validate_transcription_tailonum_charset (u "m7-ji5？") 0 None)).
    apply Forall_acceptable_forallb. vm_compute. reflexivity.
  - apply (proj1 (proj2 (validate_transcription_tailonum_charset
                           (u "café★.") 0 None))
             (u "café") 0x2605%N (u ".")).
    + vm_compute. reflexivity.
    + apply Forall_acceptable_forallb. vm_compute. reflexivity.
    + intros H. apply acceptable_contains in H. vm_compute in H. discriminate.
Defined.

(** C2.  For the mixed-script variant the validator applies the
    variant's substitution map (the small question mark and ASCII
    punctuation to their full-width forms), encodes the cleaned text and
    decodes it back, and accepts the cleaned text if and only if the
    decoded text equals it; otherwise it returns no text, adds one to the
    counter and prints the cleaned text. *)
Theorem validate_transcription_taiwen_roundtrip
    (tok : Tokenizer) (transcript : pystr) (bad_count : Z) :
  let cleaned := replace_items (mapping_of TAIWEN) transcript in
  let decoded_str := decode tok (input_ids tok cleaned) in
  let outcome :=
    validate_transcription transcript TAIWEN bad_count (Some tok) in
  mapping_of TAIWEN
  = [ ([0xFE56], [0xFF1F]); ([63], [0xFF1F]); ([33], [0xFF01]);
      ([40], [0xFF08]); ([41], [0xFF09]); ([44], [0xFF0C]);
      ([58], [0xFF1A]); ([59], [0xFF1B]) ]%N
  /\ (decoded_str = cleaned -> outcome = Return (accepted cleaned bad_count))
  /\ (decoded_str <> cleaned ->
      outcome
      = Return {| v_result := None;
                  v_bad_count := bad_count + 1;
                  v_printed :=
                    [str_of_int (bad_count + 1) ++ [9%N] ++ u " " ++ cleaned] |})
  /\ (exists v, outcome = Return v
                /\ (v_result v = Some cleaned <-> decoded_str = cleaned)
                /\ (v_result v = None <-> decoded_str <> cleaned)).
Proof.
  intros cleaned decoded_str outcome.
  split; [reflexivity|].
  unfold outcome. rewrite validate_taiwen. cbv zeta.
  fold cleaned. fold decoded_str.
  destruct (cleaned == decoded_str) eqn:E.
  - apply pystr_eqb_eq in E.
    split; [reflexivity|]. split; [congruence|].
    eexists. split; [reflexivity|]. cbn [v_result accepted].
    split; split; try discriminate; try congruence; auto.
  - apply pystr_eqb_neq in E.
    split; [congruence|]. split; [reflexivity|].
    eexists. split; [reflexivity|]. cbn [v_result].
    split; split; try discriminate; try congruence; auto.
Qed.

Lemma validate_transcription_taiwen_roundtrip_witness :
  validate_transcription (u "好?") TAIWEN 0 (Some Demo.faithful)
  = Return (accepted (u "好？") 0)
  /\ validate_transcription (u "好?") TAIWEN 0 (Some Demo.lossy)
     = Return {| v_result := None;
                 v_bad_count := 1;
                 v_printed := [u "1" ++ [9%N] ++ u " 好？"] |}.
Proof.
  split.
  - apply (proj1 (proj2 (validate_transcription_taiwen_roundtrip
                           Demo.faithful (u "好?") 0))).
    vm_compute. reflexivity.
  - apply (proj1 (proj2 (proj2 (validate_transcription_taiwen_roundtrip
                                  Demo.lossy (u "好?") 0)))).
    vm_compute. discriminate.
Defined.

Lemma subst_chain_acceptable (c : char) :
  acceptable c \/ In c (map fst tailonum_table) ->
  Forall acceptable (subst_chain tailonum_table c).
Proof.
  intros H.
  assert (Hin : In c (ACCEPTABLE_CHARS ++ map fst tailonum_table))
    by (apply in_or_app; exact H).
  apply Forall_acceptable_forallb.
  clear H. revert c Hin. apply forallb_forall.
  vm_compute. reflexivity.
Qed.

(** C10.  Every replacement text of the numeric-tone substitution map,
    the two-character ["--"] for the em dash included, consists of
    acceptable characters; so a text whose characters are each acceptable
    or a key of the map is accepted by the character-set validator. *)
Theorem tailonum_substitution_stays_acceptable :
  Forall (fun item => Forall acceptable (snd item)) (mapping_of TAILONUM)
  /\ In (u "—", u "--") (mapping_of TAILONUM)
  /\ (forall (s : pystr) (bad_count : Z) (tokenizer : option Tokenizer),
         Forall (fun c => acceptable c
                          \/ In [c] (map fst (mapping_of TAILONUM))) s ->
         validate_transcription s TAILONUM bad_count tokenizer
         = Return (accepted (replace_items (mapping_of TAILONUM) s) bad_count)).
Proof.
  split.
  { apply Forall_forall. intros item Hin. apply Forall_acceptable_forallb.
    revert item Hin. apply forallb_forall. vm_compute. reflexivity. }
  split.
  { vm_compute. do 9 right. left. reflexivity. }
  intros s bad_count tokenizer Hs.
  apply validate_tailonum_accept.
  rewrite mapping_of_TAILONUM, replace_items_subst_chain.
  induction Hs as [|c s Hc Hs IH]; [constructor|].
  cbn [flat_map]. apply Forall_app. split; [|exact IH].
  apply subst_chain_acceptable.
  destruct Hc as [Hc|Hc]; [left; exact Hc | right].
  rewrite mapping_of_TAILONUM, map_map in Hc. cbn [fst] in Hc.
  apply in_map_iff in Hc as (kv & E & Hin).
  injection E as <-. apply in_map, Hin.
Qed.

Lemma tailonum_substitution_stays_acceptable_witness :
  validate_transcription (u "a—b（1）") TAILONUM 0 None
  = Return (accepted (u "a--b(1)") 0).
Proof.
  apply (proj2 (proj2 tailonum_substitution_stays_acceptable)
           (u "a—b（1）") 0%Z None).
  apply Forall_forall. intros c Hc.
  vm_compute in Hc.
  repeat (destruct Hc as [<-|Hc];
          [first [left; apply acceptable_contains; reflexivity
                 | right; vm_compute; tauto]|]).
  destruct Hc.
Defined.

(** ** Pairing ([get_wav_from_txt]) *)



(** ** The manifest ([main]) *)

(** C6.  When [main] returns, the number of rows it hands to the writer
    plus the final rejection count equals the number of transcript
    files; each pass of the loop either appends exactly one row and
    leaves the counter unchanged, or appends no row and adds exactly one
    to the counter.  This holds for every variant for which the run
    returns, the numeric-tone and mixed-script ones among them. *)
Theorem main_row_rejection_conservation :
  (forall fs whisper args m,
      main fs whisper args = Return m ->
      (Z.of_nat (List.length (rows m)) + rejected m
       = Z.of_nat (List.length (rglob_json fs (TAT_root args // u "json"))))%Z)
  /\ (forall ty tokenizer st data st',
         loop_body ty tokenizer st data = Return st' ->
         (exists text,
             output_buffer st' = output_buffer st ++ [(fst data, text)]
             /\ bad_count st' = bad_count st)
         \/ (output_buffer st' = output_buffer st
             /\ bad_count st' = (bad_count st + 1)%Z)).
Proof.
  split.
  - intros fs whisper args m H.
    apply main_Return_inv in H
      as (ty & tokenizer & wavs & texts & st & Hw & Ht & Hloop & -> & ->).
    apply loop_conservation in Hloop. rewrite Hloop.
    cbn [output_buffer bad_count List.length].
    rewrite length_combine.
    rewrite (map_result_length _ _ _ Hw), (map_result_length _ _ _ Ht).
    lia.
  - intros ty tokenizer st data st'. apply loop_body_step.
Qed.

Lemma main_row_rejection_conservation_witness :
  exists m,
    main (Demo.corpus false) Demo.faithful (Demo.args "tailonum") = Return m
    /\ (Z.of_nat (List.length (rows m)) + rejected m = 2)%Z
    /\ List.length (rows m) = 1%nat
    /\ rejected m = 1%Z.
Proof.
  eexists. split; [vm_compute; reflexivity|].
  split; [|split; reflexivity].
  apply (proj1 main_row_rejection_conservation
           (Demo.corpus false) Demo.faithful (Demo.args "tailonum")).
  vm_compute. reflexivity.
Defined.

(** * Further properties of the script *)

(** ** When [clean_text] fails and what it returns *)

Lemma lstrip_nil_iff (s : pystr) : lstrip s = [] <-> forallb isspace s = true.
Proof.
  induction s as [|c s IH]; simpl; [tauto|].
  destruct (isspace c); simpl; [exact IH|].
  split; discriminate.
Qed.

Lemma hd_ok_forallb (s : pystr) :
  hd_ok s -> forallb isspace s = true -> s = [].
Proof.
  destruct s as [|c s]; [reflexivity|]. simpl. intros ->. discriminate.
Qed.

Lemma forallb_rev {A : Type} (f : A -> bool) (l : list A) :
  forallb f (rev l) = forallb f l.
Proof.
  induction l as [|a l IH]; simpl; [reflexivity|].
  rewrite forallb_app, IH. simpl. rewrite andb_true_r. apply andb_comm.
Qed.

Lemma rstrip_nil_iff (s : pystr) : rstrip s = [] <-> forallb isspace s = true.
Proof.
  unfold rstrip. rewrite <- (forallb_rev isspace s), <- lstrip_nil_iff.
  split; intros H.
  - apply (f_equal (@rev char)) in H. rewrite rev_involutive in H. exact H.
  - rewrite H. reflexivity.
Qed.

Lemma lstrip_decomp (s : pystr) :
  exists lead, s = lead ++ lstrip s /\ forallb isspace lead = true.
Proof.
  induction s as [|c s (lead & E & Hl)]; [exists []; split; reflexivity|].
  simpl. destruct (isspace c) eqn:Hc.
  - exists (c :: lead). simpl. rewrite Hc, Hl. split; [f_equal; exact E | reflexivity].
  - exists []. split; reflexivity.
Qed.

Lemma rstrip_decomp (s : pystr) :
  exists trail, s = rstrip s ++ trail /\ forallb isspace trail = true.
Proof.
  destruct (lstrip_decomp (rev s)) as (lead & E & Hl).
  exists (rev lead). split; [|rewrite forallb_rev; exact Hl].
  unfold rstrip. rewrite <- rev_app_distr, <- E. symmetry. apply rev_involutive.
Qed.

Lemma strip_decomp (s : pystr) :
  exists lead trail,
    s = lead ++ strip s ++ trail
    /\ forallb isspace lead = true /\ forallb isspace trail = true.
Proof.
  destruct (lstrip_decomp s) as (lead & E1 & H1).
  destruct (rstrip_decomp (lstrip s)) as (trail & E2 & H2).
  exists lead, trail. unfold strip. rewrite <- E2. auto.
Qed.

Lemma strip_nil_iff (s : pystr) : strip s = [] <-> forallb isspace s = true.
Proof.
  unfold strip. rewrite rstrip_nil_iff. split; intros H.
  - apply lstrip_nil_iff, hd_ok_forallb; [apply lstrip_hd_ok | exact H].
  - apply lstrip_nil_iff in H. rewrite H. reflexivity.
Qed.

Lemma blank_or_space_strip (s : pystr) :
  forallb blank_or_space (strip s) = forallb blank_or_space s.
Proof.
  destruct (strip_decomp s) as (lead & trail & E & Hl & Ht).
  rewrite E at 2. rewrite !forallb_app.
  assert (Hsp : forall l, forallb isspace l = true ->
                          forallb blank_or_space l = true).
  { intros l H. rewrite forallb_forall in *. intros c Hc.
    unfold blank_or_space. rewrite (H c Hc). reflexivity. }
  rewrite (Hsp lead Hl), (Hsp trail Ht), andb_true_r. reflexivity.
Qed.

Lemma isspace_blank_out (s : pystr) :
  forallb isspace (Spec.blank_out s) = forallb blank_or_space s.
Proof.
  induction s as [|c s IH]; [reflexivity|].
  change (Spec.blank_out (c :: s))
    with ((if Spec.member c Spec.blanked then 32%N else c) :: Spec.blank_out s).
  cbn [forallb]. rewrite IH. f_equal. unfold blank_or_space.
  destruct (Spec.member c Spec.blanked); [|rewrite orb_false_r; reflexivity].
  rewrite orb_true_r. reflexivity.
Qed.

Lemma final_char_none (s : pystr) : Spec.final_char s = None <-> s = [].
Proof.
  rewrite final_char_rev. split.
  - destruct (rev s) eqn:E; [|discriminate]. intros _.
    apply (f_equal (@rev char)) in E. rewrite rev_involutive in E. exact E.
  - intros ->. reflexivity.
Qed.

Lemma finish_none_iff (marks : list char) (comma period : char) (s : pystr) :
  Spec.finish marks comma period s = None <-> s = [].
Proof.
  unfold Spec.finish, Spec.ensure_terminal, Spec.trailing_comma_to_period.
  split.
  - destruct (Spec.final_char s) as [c|] eqn:E; [|intros _; apply final_char_none, E].
    destruct (c =? comma)%N.
    + rewrite final_char_app. discriminate.
    + rewrite E. discriminate.
  - intros ->. reflexivity.
Qed.

(** X1.  For the numeric-tone variant [clean_text] raises [IndexError]
    exactly on the texts made up only of whitespace and of the characters
    it blanks out (apostrophe, quotes, colon, parentheses); on every
    other text it returns. *)
Theorem clean_text_tailonum_IndexError_iff (raw : pystr) :
  (clean_text raw TAILONUM = Raise IndexError
   <-> forallb blank_or_space raw = true)
  /\ (forallb blank_or_space raw = false ->
      exists out, clean_text raw TAILONUM = Return out).
Proof.
  rewrite clean_text_tailonum.
  assert (H : Spec.normalize_tailonum raw = None
              <-> forallb blank_or_space raw = true).
  { rewrite normalize_tailonum_strip.
    rewrite finish_none_iff, strip_nil_iff, isspace_blank_out.
    rewrite blank_or_space_strip. tauto. }
  destruct (Spec.normalize_tailonum raw) as [t|].
  - split.
    + split; [discriminate|]. intros E. apply H in E. discriminate.
    + intros _. exists t. reflexivity.
  - split.
    + split; [intros _; apply H; reflexivity | reflexivity].
    + intros E. rewrite (proj1 H eq_refl) in E. discriminate.
Qed.

Lemma clean_text_tailonum_IndexError_iff_witness :
  clean_text (u " ('') ") TAILONUM = Raise IndexError
  /\ exists out, clean_text (u " ('a') ") TAILONUM = Return out.
Proof.
  split.
  - apply (proj1 (clean_text_tailonum_IndexError_iff (u " ('') "))).
    vm_compute. reflexivity.
  - apply (proj2 (clean_text_tailonum_IndexError_iff (u " ('a') "))).
    vm_compute. reflexivity.
Defined.

Lemma taiwen_finish_shape (raw out : pystr) :
  Spec.finish [0xFF1F; 0x3002; 0xFF01]%N 0xFF0C%N 0x3002%N raw = Some out ->
  exists tail c,
    out = removelast raw ++ tail
    /\ (1 <= List.length tail <= 2)%nat
    /\ last tail c = c /\ In c taiwen_marks.
Proof.
  intros E.
  destruct (finish_ends_with_mark
              [0xFF1F; 0x3002; 0xFF01]%N 0xFF0C%N 0x3002%N eq_refl _ _ E)
    as (body & m & Hm & M).
  apply existsb_eqb_In in M.
  assert (Hraw : exists c, raw = removelast raw ++ [c]).
  { destruct (Spec.final_char raw) as [c|] eqn:F.
    - exists c. apply final_char_some, F.
    - apply final_char_none in F. subst raw. discriminate. }
  destruct Hraw as (c & Hraw).
  assert (Hlast : forall pre tail,
             out = pre ++ tail -> tail <> [] -> last tail m = m).
  { intros pre tail Ho Ht.
    destruct (exists_last Ht) as (t' & x & ->).
    rewrite last_last. rewrite Hm, app_assoc in Ho.
    apply app_inj_tail in Ho as [_ Ho]. congruence. }
  destruct (finish_shape _ _ _ _ _ E) as (t1 & _ & Ht1 & Ho).
  destruct Ht1 as [E1|E1], Ho as [E2|E2]; rewrite E1 in E2; clear E1 t1.
  - exists [c], m. split; [rewrite E2; exact Hraw|].
    split; [simpl; lia|]. split; [|exact M].
    apply (Hlast (removelast raw)); [rewrite E2; exact Hraw | discriminate].
  - exists [c; 0x3002%N], m.
    assert (Ho : out = removelast raw ++ [c; 0x3002%N]).
    { rewrite E2. rewrite Hraw at 1. rewrite <- app_assoc. reflexivity. }
    split; [exact Ho|]. split; [simpl; lia|]. split; [|exact M].
    apply (Hlast (removelast raw)); [exact Ho | discriminate].
  - exists [0x3002%N], m. split; [exact E2|].
    split; [simpl; lia|]. split; [|exact M].
    apply (Hlast (removelast raw)); [exact E2 | discriminate].
  - exists [0x3002%N; 0x3002%N], m.
    assert (Ho : out = removelast raw ++ [0x3002%N; 0x3002%N]).
    { rewrite E2, <- app_assoc. reflexivity. }
    split; [exact Ho|]. split; [simpl; lia|]. split; [|exact M].
    apply (Hlast (removelast raw)); [exact Ho | discriminate].
Qed.

(** X2.  For the mixed-script variant [clean_text] raises [IndexError]
    on the empty text only.  Every other text, blank ones included, is
    returned with a terminal mark and untrimmed: the result is the input
    without its last character, followed by one or two characters the
    last of which is one of the three full-width terminal marks. *)
Theorem clean_text_taiwen_IndexError_iff (raw : pystr) :
  (clean_text raw TAIWEN = Raise IndexError <-> raw = [])
  /\ (raw <> [] ->
      exists out tail c,
        clean_text raw TAIWEN = Return out
        /\ out = removelast raw ++ tail
        /\ (1 <= List.length tail <= 2)%nat
        /\ last tail c = c /\ In c taiwen_marks).
Proof.
  rewrite clean_text_taiwen. unfold Spec.normalize_taiwen.
  pose proof (finish_none_iff taiwen_marks 0xFF0C%N 0x3002%N raw) as H.
  unfold taiwen_marks in H.
  destruct (Spec.finish _ _ _ raw) as [t|] eqn:E.
  - split.
    + split; [discriminate|]. intros E0. apply H in E0. discriminate.
    + intros _. destruct (taiwen_finish_shape _ _ E) as (tail & c & Ht).
      exists t, tail, c. split; [reflexivity | exact Ht].
  - split.
    + split; [intros _; apply H; reflexivity | reflexivity].
    + intros E0. contradiction E0. apply H. reflexivity.
Qed.

Lemma clean_text_taiwen_IndexError_iff_witness :
  clean_text [] TAIWEN = Raise IndexError
  /\ exists out tail c,
       clean_text (u "  ") TAIWEN = Return out
       /\ out = removelast (u "  ") ++ tail
       /\ (1 <= List.length tail <= 2)%nat
       /\ last tail c = c /\ In c taiwen_marks.
Proof.
  split.
  - apply (proj1 (clean_text_taiwen_IndexError_iff [])). reflexivity.
  - apply (proj2 (clean_text_taiwen_IndexError_iff (u "  "))).
    vm_compute. discriminate.
Defined.


Lemma member_In (c : char) (cs : list char) :
  Spec.member c cs = true <-> In c cs.
Proof. apply existsb_eqb_In. Qed.

Lemma normalize_tailonum_shape (raw out : pystr) :
  Spec.normalize_tailonum raw = Some out ->
  hd_ok out /\ Forall kept out
  /\ exists body c, out = body ++ [c] /\ Spec.member c tailonum_marks = true.
Proof.
  rewrite normalize_tailonum_strip. intros H.
  set (t := strip (Spec.blank_out (strip raw))) in H.
  assert (Hhd : hd_ok t) by apply strip_hd_ok.
  assert (Hkept : Forall kept t) by apply kept_strip, kept_blank_out.
  assert (Hp : kept 46%N) by reflexivity.
  split; [|split].
  - destruct (finish_shape _ _ _ _ _ H) as (t1 & Hne & Ht1 & Ho).
    assert (hd_ok t1).
    { destruct Ht1 as [->| ->]; [exact Hhd|].
      apply hd_ok_replace_last; [exact Hhd | reflexivity]. }
    destruct Ho as [->| ->]; [assumption | apply hd_ok_app; assumption].
  - destruct (finish_shape _ _ _ _ _ H) as (t1 & Hne & Ht1 & Ho).
    assert (Forall kept t1).
    { destruct Ht1 as [->| ->]; [exact Hkept|].
      apply Forall_app. split; [apply kept_removelast, Hkept|].
      constructor; [exact Hp | constructor]. }
    destruct Ho as [->| ->]; [assumption|].
    apply Forall_app. split; [assumption|].
    constructor; [exact Hp | constructor].
  - exact (finish_ends_with_mark [63; 33; 46]%N 44%N 46%N eq_refl _ _ H).
Qed.



(** X4.  Whatever [clean_text] returns for the mixed-script variant ends
    in one of the three full-width terminal marks and keeps every
    character of the input but the last in place: only the last
    character can change, and at most one character is added. *)
Theorem clean_text_taiwen_result (raw out : pystr) :
  clean_text raw TAIWEN = Return out ->
  (exists body c, out = body ++ [c] /\ In c taiwen_marks)
  /\ (exists tail,
         out = removelast raw ++ tail
         /\ (1 <= List.length tail <= 2)%nat).
Proof.
  rewrite clean_text_taiwen. unfold Spec.normalize_taiwen.
  destruct (Spec.finish _ _ _ raw) as [t|] eqn:E; [|discriminate].
  intros H. injection H as ->. split.
  - destruct (finish_ends_with_mark
                [0xFF1F; 0x3002; 0xFF01]%N 0xFF0C%N 0x3002%N eq_refl _ _ E)
      as (body & c & -> & M).
    exists body, c. split; [reflexivity | apply member_In, M].
  - assert (Hraw : exists c, raw = removelast raw ++ [c]).
    { destruct (Spec.final_char raw) as [c|] eqn:F.
      - exists c. apply final_char_some, F.
      - apply final_char_none in F. subst raw. discriminate. }
    destruct Hraw as (c & Hraw).
    destruct (finish_shape _ _ _ _ _ E) as (t1 & _ & Ht1 & Ho).
    destruct Ht1 as [->| ->], Ho as [->| ->].
    + exists [c]. split; [exact Hraw | simpl; lia].
    + exists [c; 0x3002%N]. split; [|simpl; lia].
      rewrite Hraw at 1. rewrite <- app_assoc. reflexivity.
    + exists [0x3002%N]. split; [reflexivity | simpl; lia].
    + exists [0x3002%N; 0x3002%N]. split; [|simpl; lia].
      rewrite <- app_assoc. reflexivity.
Qed.

Lemma clean_text_taiwen_result_witness :
  (exists body c, u "你，好。" = body ++ [c] /\ In c taiwen_marks)
  /\ exists tail,
       u "你，好。" = removelast (u "你，好") ++ tail
       /\ (1 <= List.length tail <= 2)%nat.
Proof.
  apply (clean_text_taiwen_result (u "你，好")).
  vm_compute. reflexivity.
Defined.

(** ** The substitution maps *)

Lemma mapping_of_TAIWEN :
  mapping_of TAIWEN = map (fun kv => ([fst kv], snd kv)) taiwen_table.
Proof. reflexivity. Qed.

Lemma subst_chain_not_key (table : list (char * pystr)) (c : char) :
  ~ In c (keys table) -> subst_chain table c = [c].
Proof.
  induction table as [|[k v] table IH]; [reflexivity|].
  cbn [keys map fst In subst_chain]. intros H.
  destruct (N.eqb_spec c k) as [->|_]; [tauto|].
  cbn [flat_map]. rewrite app_nil_r. apply IH. unfold keys. tauto.
Qed.

Lemma In_keys_dec (table : list (char * pystr)) (c : char) :
  {In c (keys table)} + {~ In c (keys table)}.
Proof. apply (in_dec N.eq_dec). Qed.

(** A table none of whose replacement texts, substituted through the
    remaining entries, contains a key. *)
Lemma subst_chain_no_key (table : list (char * pystr)) :
  forallb (fun k => forallb (fun x => negb (existsb (N.eqb x) (keys table)))
                            (subst_chain table k))
          (keys table) = true ->
  forall c, Forall (fun x => ~ In x (keys table)) (subst_chain table c).
Proof.
  intros H c. destruct (In_keys_dec table c) as [Hin|Hout].
  - rewrite forallb_forall in H. specialize (H c Hin).
    rewrite forallb_forall in H. apply Forall_forall. intros x Hx Hk.
    specialize (H x Hx). apply existsb_eqb_In in Hk. rewrite Hk in H.
    discriminate.
  - rewrite (subst_chain_not_key _ _ Hout). constructor; [exact Hout | constructor].
Qed.

Lemma flat_map_Forall {A B : Type} (P : B -> Prop) (f : A -> list B)
    (l : list A) :
  (forall a, Forall P (f a)) -> Forall P (flat_map f l).
Proof.
  intros H. induction l as [|a l IH]; simpl; [constructor|].
  apply Forall_app. split; [apply H | exact IH].
Qed.

Lemma flat_map_fix (table : list (char * pystr)) (s : pystr) :
  Forall (fun x => ~ In x (keys table)) s ->
  flat_map (subst_chain table) s = s.
Proof.
  induction 1 as [|c s Hc Hs IH]; [reflexivity|].
  cbn [flat_map]. rewrite (subst_chain_not_key _ _ Hc), IH. reflexivity.
Qed.

Lemma tailonum_no_key (s : pystr) :
  Forall (fun x => ~ In x (keys tailonum_table))
         (replace_items (mapping_of TAILONUM) s).
Proof.
  rewrite mapping_of_TAILONUM, replace_items_subst_chain.
  apply flat_map_Forall, subst_chain_no_key. reflexivity.
Qed.

Lemma taiwen_no_key (s : pystr) :
  Forall (fun x => ~ In x (keys taiwen_table))
         (replace_items (mapping_of TAIWEN) s).
Proof.
  rewrite mapping_of_TAIWEN, replace_items_subst_chain.
  apply flat_map_Forall, subst_chain_no_key. reflexivity.
Qed.

Lemma tailonum_replace_fix (s : pystr) :
  Forall (fun x => ~ In x (keys tailonum_table)) s ->
  replace_items (mapping_of TAILONUM) s = s.
Proof.
  intros H. rewrite mapping_of_TAILONUM, replace_items_subst_chain.
  apply flat_map_fix, H.
Qed.

Lemma taiwen_replace_fix (s : pystr) :
  Forall (fun x => ~ In x (keys taiwen_table)) s ->
  replace_items (mapping_of TAIWEN) s = s.
Proof.
  intros H. rewrite mapping_of_TAIWEN, replace_items_subst_chain.
  apply flat_map_fix, H.
Qed.

(** X5.  After the substitution loop of [validate_transcription] no
    character that is a key of the variant's map is left in the text:
    no full-width punctuation, em dash or box-drawing dash for the
    numeric-tone variant, no ASCII [? ! ( ) , : ;] and no small question
    mark for the mixed-script variant.  Applying the loop twice gives
    what applying it once gives. *)
Theorem replace_items_removes_keys (s : pystr) :
  Forall (fun c => ~ In [c] (map fst (mapping_of TAILONUM)))
         (replace_items (mapping_of TAILONUM) s)
  /\ Forall (fun c => ~ In [c] (map fst (mapping_of TAIWEN)))
            (replace_items (mapping_of TAIWEN) s)
  /\ replace_items (mapping_of TAILONUM) (replace_items (mapping_of TAILONUM) s)
     = replace_items (mapping_of TAILONUM) s
  /\ replace_items (mapping_of TAIWEN) (replace_items (mapping_of TAIWEN) s)
     = replace_items (mapping_of TAIWEN) s.
Proof.
  assert (Hk : forall table c,
             In [c] (map fst (map (fun kv : char * pystr => ([fst kv], snd kv))
                                  table)) -> In c (keys table)).
  { intros table c H. rewrite map_map in H. cbn [fst] in H.
    apply in_map_iff in H as (kv & E & Hin). injection E as <-.
    apply in_map, Hin. }
  split; [|split; [|split]].
  - apply (Forall_impl _ (fun c H Hin => H (Hk tailonum_table c Hin))
             (tailonum_no_key s)).
  - apply (Forall_impl _ (fun c H Hin => H (Hk taiwen_table c Hin))
             (taiwen_no_key s)).
  - apply tailonum_replace_fix, tailonum_no_key.
  - apply taiwen_replace_fix, taiwen_no_key.
Qed.

Lemma scan_chars_Some (cleaned : pystr) (bad_count : Z) (text : pystr) :
  v_result (scan_chars cleaned bad_count cleaned) = Some text ->
  text = cleaned /\ Forall acceptable cleaned.
Proof.
  destruct (first_unacceptable cleaned)
    as [Hok|(before & c & after & E & Hb & Hc)].
  - rewrite (scan_chars_accept _ _ _ Hok). cbn [v_result accepted]. intros H.
    split; [congruence | exact Hok].
  - rewrite E at 2. rewrite (scan_chars_reject _ _ _ _ _ Hb Hc). discriminate.
Qed.

(** X6.  A text [validate_transcription] has accepted is accepted
    unchanged when validated again, with any counter (and, for the
    mixed-script variant, the same tokenizer): validating a manifest
    text a second time neither rejects nor alters it. *)
Theorem validate_transcription_accepted_fixpoint
    (transcript ty : pystr) (bad_count bad_count' : Z)
    (tokenizer : option Tokenizer) (v : Validated) (text : pystr) :
  validate_transcription transcript ty bad_count tokenizer = Return v ->
  v_result v = Some text ->
  validate_transcription text ty bad_count' tokenizer
  = Return (accepted text bad_count').
Proof.
  destruct (ty == TAILONUM) eqn:E1; [|destruct (ty == TAIWEN) eqn:E2].
  - apply pystr_eqb_eq in E1. subst ty. rewrite validate_tailonum. cbv zeta.
    intros H Hv. injection H as <-.
    apply scan_chars_Some in Hv as [-> Hok].
    rewrite <- (tailonum_replace_fix _ (tailonum_no_key transcript)) at 2.
    apply validate_tailonum_accept.
    rewrite (tailonum_replace_fix _ (tailonum_no_key transcript)). exact Hok.
  - apply pystr_eqb_eq in E2. subst ty. destruct tokenizer as [tok|].
    + intros H Hv. rewrite validate_taiwen in H. cbv zeta in H.
      destruct (replace_items _ _ == _) eqn:E in H;
        injection H as <-; [|discriminate].
      change (Some (replace_items (mapping_of TAIWEN) transcript) = Some text)
        in Hv.
      assert (Et : text = replace_items (mapping_of TAIWEN) transcript)
        by congruence.
      clear Hv.
      rewrite Et, validate_taiwen. cbv zeta.
      rewrite (taiwen_replace_fix _ (taiwen_no_key transcript)).
      rewrite E. reflexivity.
    + unfold validate_transcription.
      rewrite TAIWEN_not_TAILONUM, pystr_eqb_refl, getitem_TAIWEN. discriminate.
  - unfold validate_transcription. rewrite E1, E2. discriminate.
Qed.

Lemma validate_transcription_accepted_fixpoint_witness :
  validate_transcription (u "a--b(1)") TAILONUM 7 None
  = Return (accepted (u "a--b(1)") 7).
Proof.
  apply (validate_transcription_accepted_fixpoint
           (u "a—b（1）") TAILONUM 0 7 None
           (accepted (u "a--b(1)") 0) (u "a--b(1)")).
  - vm_compute. reflexivity.
  - reflexivity.
Defined.


(** ** Reading a transcript ([get_transcription_from_json]) *)

Lemma getitem_KeyError_iff {V : Type} (d : list (pystr * V)) (k : pystr) :
  getitem d k = Raise KeyError <-> ~ In k (map fst d).
Proof.
  induction d as [|[k' v] d IH]; cbn [getitem map fst In]; [tauto|].
  destruct (k' == k) eqn:E.
  - apply pystr_eqb_eq in E. split; [discriminate | tauto].
  - apply pystr_eqb_neq in E. rewrite IH. tauto.
Qed.

Lemma getitem_raises {V : Type} (d : list (pystr * V)) (k : pystr) (e : exn) :
  getitem d k = Raise e -> e = KeyError.
Proof.
  induction d as [|[k' v] d IH]; cbn [getitem]; [congruence|].
  destruct (k' == k); [discriminate | exact IH].
Qed.

Lemma clean_text_raises (txt ty : pystr) (e : exn) :
  clean_text txt ty = Raise e -> e = IndexError \/ e = NotImplementedError.
Proof.
  destruct (ty == TAILONUM) eqn:E1; [|destruct (ty == TAIWEN) eqn:E2].
  - apply pystr_eqb_eq in E1. subst ty. rewrite clean_text_tailonum.
    destruct (Spec.normalize_tailonum txt); [discriminate|].
    intros H. left. congruence.
  - apply pystr_eqb_eq in E2. subst ty. rewrite clean_text_taiwen.
    destruct (Spec.normalize_taiwen txt); [discriminate|].
    intros H. left. congruence.
  - apply pystr_eqb_neq in E1. apply pystr_eqb_neq in E2.
    rewrite (clean_text_other txt _ E1 E2). intros H. right. congruence.
Qed.

(** X8.  [get_transcription_from_json] raises [KeyError] exactly when the
    JSON object has no entry for the variant tag; when the entry is there
    it yields what [clean_text] yields on its value, errors included. *)
Theorem get_transcription_from_json_KeyError_iff
    (fs : FileSystem) (json_path : Path) (ty : pystr) :
  (get_transcription_from_json fs json_path ty = Raise KeyError
   <-> ~ In ty (map fst (json_load fs json_path)))
  /\ (forall txt,
         getitem (json_load fs json_path) ty = Return txt ->
         get_transcription_from_json fs json_path ty = clean_text txt ty).
Proof.
  unfold get_transcription_from_json. cbv zeta. split.
  - rewrite <- getitem_KeyError_iff.
    destruct (getitem (json_load fs json_path) ty) as [txt|e] eqn:E;
      cbn [bind].
    + split; [|discriminate].
      destruct (clean_text txt ty) as [out|e] eqn:Ec; cbn [bind];
        [discriminate|].
      intros H. injection H as ->.
      apply clean_text_raises in Ec as [Ec|Ec]; discriminate Ec.
    + tauto.
  - intros txt ->. cbn [bind].
    destruct (clean_text txt ty); reflexivity.
Qed.

Lemma get_transcription_from_json_KeyError_iff_witness :
  get_transcription_from_json (Demo.corpus false) [u "utt1.json"] TAILO
  = Raise KeyError
  /\ get_transcription_from_json (Demo.corpus false) [u "utt1.json"] TAILONUM
     = clean_text (u "m7-ji5,") TAILONUM.
Proof.
  split.
  - apply (proj1 (get_transcription_from_json_KeyError_iff
                    (Demo.corpus false) [u "utt1.json"] TAILO)).
    vm_compute. intros [H|[H|[]]]; discriminate H.
  - apply (proj2 (get_transcription_from_json_KeyError_iff
                    (Demo.corpus false) [u "utt1.json"] TAILONUM)).
    vm_compute. reflexivity.
Defined.

(** ** The pattern [get_wav_from_txt] builds *)

Lemma translate_plain (s rest : pystr) (k : nat) :
  plain s = true ->
  translate (List.length s + k) (s ++ rest) = map GLit s ++ translate k rest.
Proof.
  induction s as [|c s IH]; [reflexivity|].
  cbn [plain forallb List.length app map Nat.add translate].
  rewrite andb_true_iff, negb_true_iff. unfold glob_special.
  rewrite !orb_false_iff. intros [[[H1 H2] H3] Hs].
  rewrite H1, H2, H3. f_equal. apply IH, Hs.
Qed.

Lemma tokens_match_lits (s : pystr) (p : list glob_token) (e : pystr) :
  tokens_match (map GLit s ++ p) e = true
  <-> exists e', e = s ++ e' /\ tokens_match p e' = true.
Proof.
  revert e. induction s as [|c s IH]; intros e.
  - cbn [map app]. split; [intros H; exists e; auto | intros (e' & -> & H); exact H].
  - cbn [map app tokens_match]. destruct e as [|x e].
    + split; [discriminate | intros (e' & E & _); discriminate E].
    + cbn [token_match]. rewrite andb_true_iff, N.eqb_eq, IH. split.
      * intros (-> & e' & -> & H). exists e'. auto.
      * intros (e' & E & H). injection E as -> ->. split; [reflexivity|].
        exists e'. auto.
Qed.

Lemma tokens_match_star (p : list glob_token) (e : pystr) :
  tokens_match (GStar :: p) e = true
  <-> exists pre suf, e = pre ++ suf /\ tokens_match p suf = true.
Proof.
  induction e as [|x e IH].
  - cbn [tokens_match]. rewrite orb_false_r. split.
    + intros H. exists [], []. auto.
    + intros (pre & suf & E & H). symmetry in E.
      apply app_eq_nil in E as [_ ->]. exact H.
  - change (tokens_match (GStar :: p) (x :: e))
      with (tokens_match p (x :: e) || tokens_match (GStar :: p) e).
    rewrite orb_true_iff, IH. split.
    + intros [H|(pre & suf & -> & H)].
      * exists [], (x :: e). auto.
      * exists (x :: pre), suf. auto.
    + intros ([|y pre] & suf & E & H).
      * left. cbn [app] in E. rewrite E. exact H.
      * right. cbn [app] in E. injection E as -> ->. exists pre, suf. auto.
Qed.

Lemma tokens_match_exact (s e : pystr) :
  tokens_match (map GLit s) e = true <-> e = s.
Proof.
  rewrite <- (app_nil_r (map GLit s)), tokens_match_lits. split.
  - intros (e' & -> & H). destruct e'; [apply app_nil_r | discriminate H].
  - intros ->. exists []. rewrite app_nil_r. auto.
Qed.

Lemma token_match_digit (d : char) :
  token_match (GClass false [48; 45; 57]%N) d = digit d.
Proof.
  change (token_match (GClass false [48; 45; 57]%N) d) with (digit d || false).
  apply orb_false_r.
Qed.

Lemma fnmatch_wav_pattern (s entry : pystr) :
  plain s = true ->
  fnmatch entry (s ++ u "-[0-9]*.wav") = true
  <-> exists d rest,
        digit d = true /\ entry = s ++ u "-" ++ [d] ++ rest ++ u ".wav".
Proof.
  intros Hs. unfold fnmatch.
  rewrite length_app.
  change (List.length (u "-[0-9]*.wav")) with 11%nat.
  rewrite (translate_plain s (u "-[0-9]*.wav") 11 Hs).
  change (translate 11 (u "-[0-9]*.wav"))
    with ([GLit 45%N; GClass false [48; 45; 57]%N; GStar]
          ++ map GLit (u ".wav")).
  rewrite tokens_match_lits. split.
  - intros (e' & -> & H).
    destruct e' as [|x [|d e']]; cbn [app tokens_match] in H;
      try discriminate H.
    + destruct (token_match (GLit 45%N) x); discriminate H.
    + apply andb_true_iff in H as [Hx H]. apply andb_true_iff in H as [Hd H].
      rewrite token_match_digit in Hd.
      cbn [token_match] in Hx. apply N.eqb_eq in Hx. subst x.
      apply tokens_match_star in H as (pre & suf & -> & H).
      apply tokens_match_exact in H. subst suf.
      exists d, pre. split; [exact Hd | reflexivity].
  - intros (d & rest & Hd & ->). eexists. split; [reflexivity|].
    change (tokens_match
              ([GLit 45%N; GClass false [48; 45; 57]%N; GStar]
               ++ map GLit (u ".wav"))
              (u "-" ++ [d] ++ rest ++ u ".wav"))
      with (token_match (GClass false [48; 45; 57]%N) d
            && tokens_match (GStar :: map GLit (u ".wav"))
                 (rest ++ u ".wav")).
    rewrite token_match_digit, Hd. cbn [andb].
    apply tokens_match_star. exists rest, (u ".wav"). split; [reflexivity|].
    apply tokens_match_exact. reflexivity.
Qed.

Lemma rfind_dot_app (a b : pystr) (i : nat) :
  rfind_dot b = Some i -> rfind_dot (a ++ b) = Some (List.length a + i)%nat.
Proof.
  intros H. induction a as [|c a IH]; [exact H|].
  cbn [app rfind_dot List.length Nat.add]. rewrite IH. reflexivity.
Qed.

Lemma stem_json (dir : Path) (x : pystr) :
  x <> [] -> stem (dir ++ [x ++ u ".json"]) = x.
Proof.
  intros Hx. unfold stem, name. rewrite last_last.
  rewrite (rfind_dot_app x (u ".json") 0 eq_refl), Nat.add_0_r.
  rewrite length_app. change (List.length (u ".json")) with 5%nat.
  assert (H : ((0 <? List.length x) && (List.length x <? List.length x + 5 - 1))%nat
              = true).
  { apply andb_true_iff. split; apply Nat.ltb_lt; [|lia].
    destruct x; [congruence | simpl; lia]. }
  rewrite H. rewrite firstn_app, Nat.sub_diag, firstn_all. cbn [firstn].
  apply app_nil_r.
Qed.

Lemma speaker_of (dir : Path) (spk file : pystr) :
  name (parent (dir ++ [spk; file])) = spk.
Proof.
  unfold name, parent.
  change (dir ++ [spk; file]) with (dir ++ [spk] ++ [file]).
  rewrite app_assoc, removelast_last. apply last_last.
Qed.

Lemma filter_singleton {A : Type} (f : A -> bool) (l : list A) (x : A) :
  filter f l = [x] ->
  In x l /\ f x = true /\ forall y, In y l -> f y = true -> y = x.
Proof.
  intros H.
  assert (Hx : In x (filter f l)) by (rewrite H; left; reflexivity).
  apply filter_In in Hx as [Hin Hf]. repeat split; try assumption.
  intros y Hy Hfy.
  assert (Hy' : In y (filter f l)) by (apply filter_In; auto).
  rewrite H in Hy'. destruct Hy' as [<-|[]]. reflexivity.
Qed.

(** X9.  For the transcript file [<dir>/<spk>/<x>.json], [x] not empty
    and free of the wildcard characters [*], [?] and [[], a path
    [get_wav_from_txt] returns is [<wav_dir>/<spk>/<x>-<d><rest>.wav]
    for a decimal digit [d] and some [rest], its last component is an
    entry of the speaker's directory, and no other entry of that
    directory has that shape. *)
Theorem get_wav_from_txt_result
    (fs : FileSystem) (dir : Path) (spk x : pystr) (wav_dir wav_path : Path) :
  x <> [] -> plain x = true ->
  get_wav_from_txt fs (dir ++ [spk; x ++ u ".json"]) wav_dir = Return wav_path ->
  exists d rest,
    digit d = true
    /\ wav_path = wav_dir // spk // (x ++ u "-" ++ [d] ++ rest ++ u ".wav")
    /\ In (x ++ u "-" ++ [d] ++ rest ++ u ".wav") (scandir fs (wav_dir // spk))
    /\ (forall d' rest',
           digit d' = true ->
           In (x ++ u "-" ++ [d'] ++ rest' ++ u ".wav")
              (scandir fs (wav_dir // spk)) ->
           x ++ u "-" ++ [d'] ++ rest' ++ u ".wav"
           = x ++ u "-" ++ [d] ++ rest ++ u ".wav").
Proof.
  intros Hx Hp. unfold get_wav_from_txt. cbv zeta.
  rewrite speaker_of.
  change (dir ++ [spk; x ++ u ".json"]) with (dir ++ [spk] ++ [x ++ u ".json"]).
  rewrite app_assoc, (stem_json _ x Hx).
  unfold glob.
  destruct (filter _ (scandir fs (wav_dir // spk))) as [|entry [|e2 l]] eqn:E;
    cbn [map]; intros H; try discriminate H.
  injection H as <-.
  apply filter_singleton in E as (Hin & Hm & Huniq).
  apply (fnmatch_wav_pattern x entry Hp) in Hm as (d & rest & Hd & ->).
  exists d, rest. repeat split; try assumption.
  intros d' rest' Hd' Hin'. apply Huniq; [exact Hin'|].
  apply (fnmatch_wav_pattern x _ Hp). exists d', rest'. auto.
Qed.

Lemma get_wav_from_txt_result_witness :
  exists d rest,
    digit d = true
    /\ [u "wav"; u "spk1"; u "utt1-03.wav"]
       = [u "wav"] // u "spk1" // (u "utt1" ++ u "-" ++ [d] ++ rest ++ u ".wav").
Proof.
  destruct (get_wav_from_txt_result (Demo.corpus false)
              [u "json"] (u "spk1") (u "utt1") [u "wav"]
              [u "wav"; u "spk1"; u "utt1-03.wav"])
    as (d & rest & Hd & E & _).
  - discriminate.
  - reflexivity.
  - vm_compute. reflexivity.
  - exists d, rest. split; [exact Hd | exact E].
Defined.

(** ** What [main] puts in the manifest *)

Lemma map_result_combine {A B C : Type} (f : A -> result B) (g : A -> result C)
    (l : list A) (l1 : list B) (l2 : list C) :
  map_result f l = Return l1 -> map_result g l = Return l2 ->
  Forall (fun pr => exists x, In x l /\ f x = Return (fst pr)
                              /\ g x = Return (snd pr))
         (combine l1 l2).
Proof.
  revert l1 l2. induction l as [|a l IH]; intros l1 l2 H1 H2.
  - cbn in H1. injection H1 as <-. constructor.
  - cbn [map_result] in H1, H2.
    apply bind_Return_inv in H1 as (b & Hb & H1).
    apply bind_Return_inv in H1 as (bs & Hbs & H1). injection H1 as <-.
    apply bind_Return_inv in H2 as (c & Hc & H2).
    apply bind_Return_inv in H2 as (cs & Hcs & H2). injection H2 as <-.
    cbn [combine]. constructor.
    + exists a. cbn [fst snd In]. auto.
    + apply (Forall_impl _ (fun pr '(ex_intro _ x (conj Hin Hx)) =>
                              ex_intro _ x (conj (or_intror Hin) Hx))
               (IH bs cs Hbs Hcs)).
Qed.

Lemma map_result_Raise_inv {A B : Type} (f : A -> result B) (l : list A)
    (e : exn) :
  map_result f l = Raise e -> exists a, In a l /\ f a = Raise e.
Proof.
  induction l as [|a l IH]; cbn [map_result]; [discriminate|].
  destruct (f a) as [b|e'] eqn:E; cbn [bind].
  - destruct (map_result f l) as [bs|e'']; cbn [bind]; [discriminate|].
    intros H. injection H as ->. destruct (IH eq_refl) as (x & Hin & Hx).
    exists x. split; [right; exact Hin | exact Hx].
  - intros H. injection H as ->. exists a. split; [left; reflexivity | exact E].
Qed.

Lemma combine_map_fst {A B : Type} (l1 : list A) (l2 : list B) :
  List.length l1 = List.length l2 -> map fst (combine l1 l2) = l1.
Proof.
  revert l2. induction l1 as [|a l1 IH]; intros [|b l2] H;
    try discriminate H; [reflexivity|].
  cbn. f_equal. apply IH. injection H as H. exact H.
Qed.

Lemma subseq_refl {A : Type} (l : list A) : subseq l l.
Proof. induction l; constructor; assumption. Qed.

Lemma subseq_nil_l {A : Type} (l : list A) : subseq [] l.
Proof. induction l; constructor; assumption. Qed.

Lemma loop_rows (ty : pystr) (tokenizer : option Tokenizer)
    (df : list (Path * pystr)) (st st' : LoopState) :
  loop ty tokenizer st df = Return st' ->
  exists new,
    output_buffer st' = output_buffer st ++ new
    /\ subseq (map fst new) (map fst df)
    /\ Forall (fun row =>
                 exists data bc v,
                   In data df /\ fst row = fst data
                   /\ validate_transcription (snd data) ty bc tokenizer
                      = Return v
                   /\ v_result v = Some (snd row))
              new.
Proof.
  revert st. induction df as [|data df IH]; intros st H.
  - cbn [loop] in H. injection H as <-. exists [].
    rewrite app_nil_r. repeat split; constructor.
  - cbn [loop] in H. apply bind_Return_inv in H as (st1 & Hbody & H).
    destruct (IH _ H) as (new & E & Hsub & Hall). clear IH H.
    assert (Hall' : Forall (fun row =>
                 exists data0 bc v,
                   In data0 (data :: df) /\ fst row = fst data0
                   /\ validate_transcription (snd data0) ty bc tokenizer
                      = Return v
                   /\ v_result v = Some (snd row)) new).
    { apply (Forall_impl _ (fun row
               '(ex_intro _ d (ex_intro _ bc (ex_intro _ v (conj Hin Hr)))) =>
               ex_intro _ d (ex_intro _ bc (ex_intro _ v
                 (conj (or_intror Hin) Hr)))) Hall). }
    unfold loop_body in Hbody.
    apply bind_Return_inv in Hbody as (v & Hv & Hbody).
    injection Hbody as <-. cbn [output_buffer] in E.
    destruct (v_result v) as [text|] eqn:Ev.
    + exists ((fst data, text) :: new). rewrite E, <- app_assoc.
      split; [reflexivity|]. split; [cbn; constructor; exact Hsub|].
      constructor; [|exact Hall'].
      exists data, (bad_count st), v. cbn [fst snd In]. auto.
    + exists new. split; [exact E|].
      split; [cbn [map]; constructor; exact Hsub | exact Hall'].
Qed.

Lemma main_Return_inv_cfg (fs : FileSystem) (whisper : Tokenizer) (args : Args)
    (m : Manifest) :
  main fs whisper args = Return m ->
  exists ty tokenizer wavs texts st,
    configure whisper (transcript_type args) = Return (ty, tokenizer)
    /\ map_result (fun txt_path =>
                     get_wav_from_txt fs txt_path
                       (TAT_root args // u "condenser" // u "wav"))
                  (rglob_json fs (TAT_root args // u "json")) = Return wavs
    /\ map_result (fun json_path => get_transcription_from_json fs json_path ty)
                  (rglob_json fs (TAT_root args // u "json")) = Return texts
    /\ loop ty tokenizer
            {| bad_count := 0; output_buffer := [];
               stdout := [u "Transcript Type: " ++ ty] |}
            (combine wavs texts) = Return st
    /\ m = {| output_path :=
                output_root args // (name (TAT_root args) ++ u ".csv");
              rows := output_buffer st;
              rejected := bad_count st;
              printed :=
                stdout st
                ++ [u "Output at "
                    ++ path_str (output_root args
                                 // (name (TAT_root args) ++ u ".csv"))] |}.
Proof.
  unfold main. intros H.
  apply bind_Return_inv in H as ([ty tokenizer] & Hcfg & H). cbv zeta in H.
  cbn [fst snd] in H.
  apply bind_Return_inv in H as (wavs & Hwavs & H).
  destruct (negb _); [discriminate|].
  apply bind_Return_inv in H as (texts & Htexts & H).
  apply bind_Return_inv in H as (st & Hloop & H).
  apply bind_Return_inv in H as (written & Hcsv & H).
  apply to_csv_Return_inv in Hcsv as [-> _].
  injection H as <-.
  exists ty, tokenizer, wavs, texts, st.
  repeat split; assumption.
Qed.


(** X10.  Every row of the manifest comes from a transcript file of the
    scan: its path is what [get_wav_from_txt] resolved for that file and
    its text is what [validate_transcription] accepted for the text
    [get_transcription_from_json] read from the same file.  No row is
    made up and none pairs the audio of one file with the text of
    another. *)
Theorem manifest_rows_come_from_records
    (fs : FileSystem) (whisper : Tokenizer) (args : Args) (m : Manifest) :
  main fs whisper args = Return m ->
  exists ty tokenizer,
    configure whisper (transcript_type args) = Return (ty, tokenizer)
    /\ Forall (fun row =>
                 exists txt_path raw bc v,
                   In txt_path (rglob_json fs (TAT_root args // u "json"))
                   /\ get_wav_from_txt fs txt_path
                        (TAT_root args // u "condenser" // u "wav")
                      = Return (fst row)
                   /\ get_transcription_from_json fs txt_path ty = Return raw
                   /\ validate_transcription raw ty bc tokenizer = Return v
                   /\ v_result v = Some (snd row))
              (rows m).
Proof.
  intros H.
  apply main_Return_inv_cfg in H
    as (ty & tokenizer & wavs & texts & st & Hcfg & Hw & Ht & Hloop & ->).
  exists ty, tokenizer. split; [exact Hcfg|]. cbn [rows].
  destruct (loop_rows _ _ _ _ _ Hloop) as (new & E & _ & Hall).
  cbn [output_buffer app] in E. rewrite E.
  pose proof (map_result_combine _ _ _ _ _ Hw Ht) as Hpairs.
  rewrite Forall_forall in *. intros row Hrow.
  destruct (Hall row Hrow) as (data & bc & v & Hin & Hfst & Hv & Hres).
  destruct (Hpairs data Hin) as (txt_path & Hin' & Hwav & Htxt).
  exists txt_path, (snd data), bc, v. rewrite Hfst. auto.
Qed.

Lemma manifest_rows_come_from_records_witness :
  exists ty tokenizer,
    configure Demo.faithful (u "tailonum") = Return (ty, tokenizer)
    /\ Forall (fun row =>
                 exists txt_path raw bc v,
                   In txt_path
                      (rglob_json (Demo.corpus false)
                         ([u "data"; u "TAT-Vol1-train"] // u "json"))
                   /\ get_wav_from_txt (Demo.corpus false) txt_path
                        ([u "data"; u "TAT-Vol1-train"]
                         // u "condenser" // u "wav")
                      = Return (fst row)
                   /\ get_transcription_from_json (Demo.corpus false)
                        txt_path ty = Return raw
                   /\ validate_transcription raw ty bc tokenizer = Return v
                   /\ v_result v = Some (snd row))
              [([u "data"; u "TAT-Vol1-train"; u "condenser"; u "wav";
                 u "spk1"; u "utt1-03.wav"], u "m7-ji5.")].
Proof.
  apply (manifest_rows_come_from_records (Demo.corpus false) Demo.faithful
           (Demo.args "tailonum")
           {| output_path := [u "out"; u "TAT-Vol1-train.csv"];
              rows := [([u "data"; u "TAT-Vol1-train"; u "condenser"; u "wav";
                         u "spk1"; u "utt1-03.wav"], u "m7-ji5.")];
              rejected := 1;
              printed :=
                [u "Transcript Type: 台羅數字調";
                 u "1" ++ [9%N] ++ u "★" ++ [9%N] ++ u ": café★.";
                 u "Output at /out/TAT-Vol1-train.csv"] |}).
  vm_compute. reflexivity.
Defined.

(** X11.  The manifest keeps the scan order: the paths of its rows are
    the resolved audio paths of the transcript files, in the order the
    files were found, with the rejected ones left out. *)
Theorem manifest_rows_in_scan_order
    (fs : FileSystem) (whisper : Tokenizer) (args : Args) (m : Manifest) :
  main fs whisper args = Return m ->
  exists wavs,
    map_result (fun txt_path =>
                  get_wav_from_txt fs txt_path
                    (TAT_root args // u "condenser" // u "wav"))
               (rglob_json fs (TAT_root args // u "json")) = Return wavs
    /\ subseq (map fst (rows m)) wavs.
Proof.
  intros H.
  apply main_Return_inv_cfg in H
    as (ty & tokenizer & wavs & texts & st & Hcfg & Hw & Ht & Hloop & ->).
  exists wavs. split; [exact Hw|]. cbn [rows].
  destruct (loop_rows _ _ _ _ _ Hloop) as (new & E & Hsub & _).
  cbn [output_buffer app] in E. rewrite E.
  rewrite combine_map_fst in Hsub; [exact Hsub|].
  rewrite (map_result_length _ _ _ Hw), (map_result_length _ _ _ Ht).
  reflexivity.
Qed.

Lemma manifest_rows_in_scan_order_witness :
  exists wavs,
    map_result (fun txt_path =>
                  get_wav_from_txt (Demo.corpus false) txt_path
                    ([u "data"; u "TAT-Vol1-train"] // u "condenser" // u "wav"))
               (rglob_json (Demo.corpus false)
                  ([u "data"; u "TAT-Vol1-train"] // u "json")) = Return wavs
    /\ subseq [[u "data"; u "TAT-Vol1-train"; u "condenser"; u "wav";
                u "spk1"; u "utt1-03.wav"]] wavs.
Proof.
  apply (manifest_rows_in_scan_order (Demo.corpus false) Demo.faithful
           (Demo.args "tailonum")
           {| output_path := [u "out"; u "TAT-Vol1-train.csv"];
              rows := [([u "data"; u "TAT-Vol1-train"; u "condenser"; u "wav";
                         u "spk1"; u "utt1-03.wav"], u "m7-ji5.")];
              rejected := 1;
              printed :=
                [u "Transcript Type: 台羅數字調";
                 u "1" ++ [9%N] ++ u "★" ++ [9%N] ++ u ": café★.";
                 u "Output at /out/TAT-Vol1-train.csv"] |}).
  vm_compute. reflexivity.
Defined.

(** ** The texts of the manifest *)

Lemma get_transcription_Return_inv (fs : FileSystem) (json_path : Path)
    (ty raw : pystr) :
  get_transcription_from_json fs json_path ty = Return raw ->
  exists txt, clean_text txt ty = Return raw.
Proof.
  unfold get_transcription_from_json. cbv zeta. intros H.
  apply bind_Return_inv in H as (txt & _ & H).
  apply bind_Return_inv in H as (out & Hc & H).
  injection H as <-. exists txt. exact Hc.
Qed.

Lemma main_rows_texts (fs : FileSystem) (whisper : Tokenizer) (args : Args)
    (m : Manifest) :
  main fs whisper args = Return m ->
  exists ty tokenizer,
    configure whisper (transcript_type args) = Return (ty, tokenizer)
    /\ Forall (fun row =>
                 exists txt raw bc v,
                   clean_text txt ty = Return raw
                   /\ validate_transcription raw ty bc tokenizer = Return v
                   /\ v_result v = Some (snd row))
              (rows m).
Proof.
  intros H.
  apply main_Return_inv_cfg in H
    as (ty & tokenizer & wavs & texts & st & Hcfg & Hw & Ht & Hloop & ->).
  exists ty, tokenizer. split; [exact Hcfg|]. cbn [rows].
  destruct (loop_rows _ _ _ _ _ Hloop) as (new & E & _ & Hall).
  cbn [output_buffer app] in E. rewrite E.
  pose proof (map_result_combine _ _ _ _ _ Hw Ht) as Hpairs.
  rewrite Forall_forall in *. intros row Hrow.
  destruct (Hall row Hrow) as (data & bc & v & Hin & _ & Hv & Hres).
  destruct (Hpairs data Hin) as (txt_path & _ & _ & Htxt).
  apply get_transcription_Return_inv in Htxt as (txt & Hc).
  exists txt, (snd data), bc, v. auto.
Qed.

Lemma flat_map_snoc_fix (table : list (char * pystr)) (body : pystr) (c : char) :
  ~ In c (keys table) ->
  flat_map (subst_chain table) (body ++ [c])
  = flat_map (subst_chain table) body ++ [c].
Proof.
  intros H. rewrite flat_map_app. cbn [flat_map].
  rewrite (subst_chain_not_key _ _ H), app_nil_r. reflexivity.
Qed.

Lemma tailonum_mark_not_key (c : char) :
  In c tailonum_marks -> ~ In c (keys tailonum_table).
Proof.
  intros [<-|[<-|[<-|[]]]] H; vm_compute in H;
    repeat (destruct H as [H|H]; [discriminate H|]); exact H.
Qed.

Lemma taiwen_mark_not_key (c : char) :
  In c taiwen_marks -> ~ In c (keys taiwen_table).
Proof.
  intros [<-|[<-|[<-|[]]]] H; vm_compute in H;
    repeat (destruct H as [H|H]; [discriminate H|]); exact H.
Qed.

Lemma tailonum_row_text (txt raw text : pystr) (bc : Z)
    (tokenizer : option Tokenizer) (v : Validated) :
  clean_text txt TAILONUM = Return raw ->
  validate_transcription raw TAILONUM bc tokenizer = Return v ->
  v_result v = Some text ->
  Forall acceptable text
  /\ exists body c, text = body ++ [c] /\ In c tailonum_marks.
Proof.
  rewrite clean_text_tailonum, validate_tailonum. cbv zeta.
  destruct (Spec.normalize_tailonum txt) as [t|] eqn:E; [|discriminate].
  intros H Hv Hres. injection H as ->.
  assert (Ev : v = scan_chars (replace_items (mapping_of TAILONUM) raw) bc
                     (replace_items (mapping_of TAILONUM) raw)) by congruence.
  rewrite Ev in Hres. apply scan_chars_Some in Hres as [-> Hok].
  split; [exact Hok|].
  destruct (normalize_tailonum_shape _ _ E) as (_ & _ & body & c & -> & M).
  apply member_In in M.
  rewrite mapping_of_TAILONUM, replace_items_subst_chain.
  rewrite (flat_map_snoc_fix _ _ _ (tailonum_mark_not_key c M)).
  eexists _, c. split; [reflexivity | exact M].
Qed.

Lemma taiwen_row_text (txt raw text : pystr) (bc : Z) (tok : Tokenizer)
    (v : Validated) :
  clean_text txt TAIWEN = Return raw ->
  validate_transcription raw TAIWEN bc (Some tok) = Return v ->
  v_result v = Some text ->
  decode tok (input_ids tok text) = text
  /\ Forall (fun c => ~ In c (keys taiwen_table)) text
  /\ exists body c, text = body ++ [c] /\ In c taiwen_marks.
Proof.
  rewrite clean_text_taiwen, validate_taiwen. cbv zeta.
  unfold Spec.normalize_taiwen.
  destruct (Spec.finish _ _ _ txt) as [t|] eqn:E; [|discriminate].
  intros H Hv Hres. injection H as ->.
  destruct (replace_items _ _ == _) eqn:Eq in Hv.
  - assert (Et : text = replace_items (mapping_of TAIWEN) raw).
    { assert (Ev : v = accepted (replace_items (mapping_of TAIWEN) raw) bc)
        by congruence.
      rewrite Ev in Hres.
      change (Some (replace_items (mapping_of TAIWEN) raw) = Some text) in Hres.
      congruence. }
    apply pystr_eqb_eq in Eq. rewrite Et.
    split; [symmetry; exact Eq|]. split; [apply taiwen_no_key|].
    destruct (finish_ends_with_mark
                [0xFF1F; 0x3002; 0xFF01]%N 0xFF0C%N 0x3002%N eq_refl _ _ E)
      as (body & c & -> & M).
    apply member_In in M.
    rewrite mapping_of_TAIWEN, replace_items_subst_chain.
    rewrite (flat_map_snoc_fix _ _ _ (taiwen_mark_not_key c M)).
    eexists _, c. split; [reflexivity | exact M].
  - assert (Ev : v_result v = None) by (injection Hv as <-; reflexivity).
    congruence.
Qed.

(** X12.  With the numeric-tone variant every text in the manifest
    consists of characters of [ACCEPTABLE_CHARS] only and ends in one of
    [?], [!], [.]. *)
Theorem tailonum_manifest_texts
    (fs : FileSystem) (whisper : Tokenizer) (args : Args) (m : Manifest) :
  transcript_type args = u "tailonum" ->
  main fs whisper args = Return m ->
  Forall (fun row =>
            Forall acceptable (snd row)
            /\ exists body c, snd row = body ++ [c] /\ In c tailonum_marks)
         (rows m).
Proof.
  intros Hty H.
  apply main_rows_texts in H as (ty & tokenizer & Hcfg & Hall).
  rewrite Hty in Hcfg.
  assert (E : (ty, tokenizer) = (TAILONUM, None))
    by (change (Return (TAILONUM, @None Tokenizer) = Return (ty, tokenizer))
          in Hcfg; congruence).
  injection E as -> ->.
  apply (Forall_impl _ (fun row '(ex_intro _ txt (ex_intro _ raw (ex_intro _ bc
           (ex_intro _ v (conj Hc (conj Hv Hr)))))) =>
           tailonum_row_text txt raw (snd row) bc None v Hc Hv Hr) Hall).
Qed.

Lemma tailonum_manifest_texts_witness :
  Forall (fun row =>
            Forall acceptable (snd row)
            /\ exists body c, snd row = body ++ [c] /\ In c tailonum_marks)
         [([u "data"; u "TAT-Vol1-train"; u "condenser"; u "wav";
            u "spk1"; u "utt1-03.wav"], u "m7-ji5.")].
Proof.
  apply (tailonum_manifest_texts (Demo.corpus false) Demo.faithful
           (Demo.args "tailonum")
           {| output_path := [u "out"; u "TAT-Vol1-train.csv"];
              rows := [([u "data"; u "TAT-Vol1-train"; u "condenser"; u "wav";
                         u "spk1"; u "utt1-03.wav"], u "m7-ji5.")];
              rejected := 1;
              printed :=
                [u "Transcript Type: 台羅數字調";
                 u "1" ++ [9%N] ++ u "★" ++ [9%N] ++ u ": café★.";
                 u "Output at /out/TAT-Vol1-train.csv"] |}).
  - reflexivity.
  - vm_compute. reflexivity.
Defined.

(** X13.  With the mixed-script variant every text in the manifest is
    reproduced exactly by the tokenizer (decode of encode), contains no
    ASCII [? ! ( ) , : ;] and no small question mark, and ends in one of
    the three full-width terminal marks. *)
Theorem taiwen_manifest_texts
    (fs : FileSystem) (whisper : Tokenizer) (args : Args) (m : Manifest) :
  transcript_type args = u "taiwen" ->
  main fs whisper args = Return m ->
  Forall (fun row =>
            decode whisper (input_ids whisper (snd row)) = snd row
            /\ Forall (fun c => ~ In c (keys taiwen_table)) (snd row)
            /\ exists body c, snd row = body ++ [c] /\ In c taiwen_marks)
         (rows m).
Proof.
  intros Hty H.
  apply main_rows_texts in H as (ty & tokenizer & Hcfg & Hall).
  rewrite Hty in Hcfg.
  assert (E : (ty, tokenizer) = (TAIWEN, Some whisper))
    by (change (Return (TAIWEN, Some whisper) = Return (ty, tokenizer))
          in Hcfg; congruence).
  injection E as -> ->.
  apply (Forall_impl _ (fun row '(ex_intro _ txt (ex_intro _ raw (ex_intro _ bc
           (ex_intro _ v (conj Hc (conj Hv Hr)))))) =>
           taiwen_row_text txt raw (snd row) bc whisper v Hc Hv Hr) Hall).
Qed.

Lemma taiwen_manifest_texts_witness :
  exists m,
    main (Demo.corpus false) Demo.faithful (Demo.args "taiwen") = Return m
    /\ List.length (rows m) = 2%nat
    /\ Forall (fun row =>
                 decode Demo.faithful (input_ids Demo.faithful (snd row))
                 = snd row
                 /\ Forall (fun c => ~ In c (keys taiwen_table)) (snd row)
                 /\ exists body c, snd row = body ++ [c] /\ In c taiwen_marks)
              (rows m).
Proof.
  eexists. split; [vm_compute; reflexivity|]. split; [reflexivity|].
  apply (taiwen_manifest_texts (Demo.corpus false) Demo.faithful
           (Demo.args "taiwen")).
  - reflexivity.
  - vm_compute. reflexivity.
Defined.

(** ** How [main] can end *)

Lemma validate_raises (transcript ty : pystr) (bad_count : Z)
    (tokenizer : option Tokenizer) (e : exn) :
  validate_transcription transcript ty bad_count tokenizer = Raise e ->
  e = NotImplementedError \/ (ty = TAIWEN /\ tokenizer = None).
Proof.
  destruct (ty == TAILONUM) eqn:E1; [|destruct (ty == TAIWEN) eqn:E2].
  - apply pystr_eqb_eq in E1. subst ty. rewrite validate_tailonum. discriminate.
  - apply pystr_eqb_eq in E2. subst ty. destruct tokenizer as [tok|].
    + rewrite validate_taiwen. cbv zeta.
      destruct (replace_items _ _ == _); discriminate.
    + intros _. right. split; reflexivity.
  - unfold validate_transcription. rewrite E1, E2.
    intros H. left. congruence.
Qed.

Lemma loop_Raise_inv (ty : pystr) (tokenizer : option Tokenizer)
    (df : list (Path * pystr)) (st : LoopState) (e : exn) :
  loop ty tokenizer st df = Raise e ->
  exists transcript bc,
    validate_transcription transcript ty bc tokenizer = Raise e.
Proof.
  revert st. induction df as [|data df IH]; intros st; cbn [loop];
    [discriminate|].
  destruct (loop_body ty tokenizer st data) as [st1|e'] eqn:E; cbn [bind].
  - apply IH.
  - intros H. injection H as ->. unfold loop_body in E.
    destruct (validate_transcription (snd data) ty (bad_count st) tokenizer)
      as [v|e'] eqn:Ev; cbn [bind] in E; [discriminate|].
    injection E as ->. exists (snd data), (bad_count st). exact Ev.
Qed.

Lemma configure_cases (whisper : Tokenizer) (variant ty : pystr)
    (tokenizer : option Tokenizer) :
  configure whisper variant = Return (ty, tokenizer) ->
  (variant = u "tailo" /\ ty = TAILO /\ tokenizer = None)
  \/ (variant = u "taiwen" /\ ty = TAIWEN /\ tokenizer = Some whisper)
  \/ (variant = u "tailonum" /\ ty = TAILONUM /\ tokenizer = None).
Proof.
  unfold configure.
  destruct (variant == u "tailo") eqn:E1;
    [|destruct (variant == u "taiwen") eqn:E2;
      [|destruct (variant == u "tailonum") eqn:E3]];
    intros H; try discriminate H.
  - apply pystr_eqb_eq in E1. left. split; [exact E1|]. split; congruence.
  - apply pystr_eqb_eq in E2. right. left. split; [exact E2|]. split; congruence.
  - apply pystr_eqb_eq in E3. right. right. split; [exact E3|]. split; congruence.
Qed.

Lemma configure_raises (whisper : Tokenizer) (variant : pystr) (e : exn) :
  configure whisper variant = Raise e -> e = NotImplementedError.
Proof.
  unfold configure.
  destruct (variant == u "tailo"); [discriminate|].
  destruct (variant == u "taiwen"); [discriminate|].
  destruct (variant == u "tailonum"); [discriminate|].
  congruence.
Qed.

Lemma get_transcription_raises (fs : FileSystem) (json_path : Path)
    (ty : pystr) (e : exn) :
  get_transcription_from_json fs json_path ty = Raise e ->
  e = KeyError \/ e = IndexError \/ e = NotImplementedError.
Proof.
  unfold get_transcription_from_json. cbv zeta.
  destruct (getitem (json_load fs json_path) ty) as [txt|e'] eqn:G; cbn [bind].
  - destruct (clean_text txt ty) as [out|e'] eqn:C; cbn [bind]; [discriminate|].
    intros H. injection H as ->. right. apply (clean_text_raises _ _ _ C).
  - intros H. injection H as ->. left. apply (getitem_raises _ _ _ G).
Qed.

(** The body of [main], with the choice of variant named. *)
Lemma main_unfold (fs : FileSystem) (whisper : Tokenizer) (args : Args) :
  main fs whisper args
  = (cfg <- configure whisper (transcript_type args) ;;
     wavs <- map_result
               (fun txt_path =>
                  get_wav_from_txt fs txt_path
                    (TAT_root args // u "condenser" // u "wav"))
               (rglob_json fs (TAT_root args // u "json")) ;;
     if negb (List.length (rglob_json fs (TAT_root args // u "json"))
              =? List.length wavs)%nat
     then Raise AssertionError
     else
       texts <- map_result
                  (fun json_path =>
                     get_transcription_from_json fs json_path (fst cfg))
                  (rglob_json fs (TAT_root args // u "json")) ;;
       st <- loop (fst cfg) (snd cfg)
                  {| bad_count := 0; output_buffer := [];
                     stdout := [u "Transcript Type: " ++ fst cfg] |}
                  (combine wavs texts) ;;
       written <- to_csv (output_buffer st) ;;
       Return
         {| output_path :=
              output_root args // (name (TAT_root args) ++ u ".csv");
            rows := written;
            rejected := bad_count st;
            printed :=
              stdout st
              ++ [u "Output at "
                  ++ path_str (output_root args
                               // (name (TAT_root args) ++ u ".csv"))] |}).
Proof. reflexivity. Qed.

Lemma to_csv_raises (output_buffer : list (Path * pystr)) (e : exn) :
  to_csv output_buffer = Raise e -> e = ValueError /\ output_buffer = [].
Proof.
  destruct output_buffer as [|row l]; cbn [to_csv]; [|discriminate].
  intros H. split; [congruence | reflexivity].
Qed.

(** X14.  The assertion of [main] that there are as many resolved audio
    paths as transcript files never fails: no run of [main] ends with
    [AssertionError]. *)
Theorem main_assertion_never_fails
    (fs : FileSystem) (whisper : Tokenizer) (args : Args) :
  main fs whisper args <> Raise AssertionError.
Proof.
  rewrite main_unfold.
  destruct (configure whisper (transcript_type args)) as [[ty tokenizer]|e0]
    eqn:Ecfg; cbn [bind fst snd].
  2:{ rewrite (configure_raises _ _ _ Ecfg). discriminate. }
  destruct (map_result _ (rglob_json fs (TAT_root args // u "json")))
    as [wavs|e0] eqn:Ew; cbn [bind].
  2:{ apply map_result_Raise_inv in Ew as (a & _ & Ha).
      rewrite (get_wav_from_txt_raises _ _ _ _ Ha). discriminate. }
  rewrite (map_result_length _ _ _ Ew), Nat.eqb_refl. cbn [negb].
  destruct (map_result
              (fun json_path => get_transcription_from_json fs json_path ty) _)
    as [texts|e0] eqn:Et; cbn [bind].
  2:{ apply map_result_Raise_inv in Et as (a & _ & Ha).
      apply get_transcription_raises in Ha.
      destruct Ha as [E|[E|E]]; rewrite E; discriminate. }
  destruct (loop _ _ _ _) as [st|e0] eqn:El; cbn [bind].
  - destruct (to_csv (output_buffer st)) as [written|e0] eqn:Ec; cbn [bind];
      [discriminate|].
    apply to_csv_raises in Ec as [-> _]. discriminate.
  - apply loop_Raise_inv in El as (transcript & bc & Hv).
    unfold validate_transcription in Hv.
    destruct (ty == TAILONUM).
    + destruct (getitem CLEAN_MAPPING ty) as [mapping|e1] eqn:G;
        cbn [bind] in Hv; [discriminate Hv|].
      apply getitem_raises in G. congruence.
    + destruct (ty == TAIWEN); [|congruence].
      destruct (getitem CLEAN_MAPPING ty) as [mapping|e1] eqn:G;
        cbn [bind] in Hv.
      * destruct tokenizer; [destruct (negb _); discriminate Hv | congruence].
      * apply getitem_raises in G. congruence.
Qed.

(** X15.  With a variant name other than ["tailo"], ["taiwen"] and
    ["tailonum"], [main] raises [NotImplementedError] whatever the file
    system holds: nothing is resolved or read first. *)
Theorem main_unknown_variant
    (fs : FileSystem) (whisper : Tokenizer) (args : Args) :
  ~ In (transcript_type args) [u "tailo"; u "taiwen"; u "tailonum"] ->
  main fs whisper args = Raise NotImplementedError.
Proof.
  intros H. rewrite main_unfold. unfold configure.
  assert (H1 : (transcript_type args == u "tailo") = false)
    by (apply pystr_eqb_neq; intros E; apply H; rewrite E; cbn; auto).
  assert (H2 : (transcript_type args == u "taiwen") = false)
    by (apply pystr_eqb_neq; intros E; apply H; rewrite E; cbn; auto).
  assert (H3 : (transcript_type args == u "tailonum") = false)
    by (apply pystr_eqb_neq; intros E; apply H; rewrite E; cbn; auto).
  rewrite H1, H2, H3. reflexivity.
Qed.

Lemma main_unknown_variant_witness :
  main Demo.duplicated Demo.faithful (Demo.args "Tailonum")
  = Raise NotImplementedError.
Proof.
  apply (main_unknown_variant Demo.duplicated Demo.faithful
           (Demo.args "Tailonum")).
  vm_compute. intros [H|[H|[H|[]]]]; discriminate H.
Defined.



(** ** What [main] prints *)






(** ** A tokenizer that loses nothing *)

Lemma loop_taiwen_faithful (tok : Tokenizer) (df : list (Path * pystr))
    (st st' : LoopState) :
  (forall s, decode tok (input_ids tok s) = s) ->
  loop TAIWEN (Some tok) st df = Return st' ->
  bad_count st' = bad_count st.
Proof.
  intros Hid. revert st. induction df as [|data df IH]; intros st H.
  - cbn [loop] in H. congruence.
  - cbn [loop] in H. apply bind_Return_inv in H as (st1 & Hbody & H).
    rewrite (IH _ H). clear IH H.
    unfold loop_body in Hbody. rewrite validate_taiwen in Hbody.
    cbv zeta in Hbody. rewrite Hid, pystr_eqb_refl in Hbody.
    cbn [bind] in Hbody.
    assert (E : st1 = {| bad_count := bad_count st;
                         output_buffer :=
                           output_buffer st
                           ++ [(fst data,
                                replace_items (mapping_of TAIWEN) (snd data))];
                         stdout := stdout st ++ [] |})
      by (change (Return {| bad_count := bad_count st;
                            output_buffer :=
                              output_buffer st
                              ++ [(fst data,
                                   replace_items (mapping_of TAIWEN)
                                     (snd data))];
                            stdout := stdout st ++ [] |} = Return st1)
            in Hbody; congruence).
    rewrite E. reflexivity.
Qed.

(** X18.  With the mixed-script variant and a tokenizer whose decode
    undoes its encode on every text, [main] rejects nothing: the
    rejection count is zero and the manifest has one row per transcript
    file. *)
Theorem main_taiwen_faithful_tokenizer
    (fs : FileSystem) (whisper : Tokenizer) (args : Args) (m : Manifest) :
  (forall s, decode whisper (input_ids whisper s) = s) ->
  transcript_type args = u "taiwen" ->
  main fs whisper args = Return m ->
  rejected m = 0%Z
  /\ List.length (rows m)
     = List.length (rglob_json fs (TAT_root args // u "json")).
Proof.
  intros Hid Hty H.
  apply main_Return_inv_cfg in H
    as (ty & tokenizer & wavs & texts & st & Hcfg & Hw & Ht & Hloop & ->).
  rewrite Hty in Hcfg.
  assert (E : (ty, tokenizer) = (TAIWEN, Some whisper))
    by (change (Return (TAIWEN, Some whisper) = Return (ty, tokenizer))
          in Hcfg; congruence).
  injection E as -> ->.
  pose proof (loop_taiwen_faithful _ _ _ _ Hid Hloop) as Hbad.
  pose proof (loop_conservation _ _ _ _ _ Hloop) as Hcons.
  cbn [bad_count output_buffer List.length rows rejected] in *.
  rewrite length_combine in Hcons.
  rewrite (map_result_length _ _ _ Hw), (map_result_length _ _ _ Ht) in Hcons.
  split; [exact Hbad | lia].
Qed.

Lemma main_taiwen_faithful_tokenizer_witness :
  exists m,
    main (Demo.corpus false) Demo.faithful (Demo.args "taiwen") = Return m
    /\ rejected m = 0%Z
    /\ List.length (rows m) = 2%nat.
Proof.
  eexists. split; [vm_compute; reflexivity|].
  apply (main_taiwen_faithful_tokenizer (Demo.corpus false) Demo.faithful
           (Demo.args "taiwen")).
  - intros s. unfold Demo.faithful. cbn [decode input_ids].
    rewrite map_map. rewrite <- (map_id s) at 2.
    apply map_ext. intros c. apply N2Z.id.
  - reflexivity.
  - vm_compute. reflexivity.
Defined.

(** ** The writer *)


